(** * PurePlateBharath: the report parser of [src/index.tsx]

    The only algorithmic part of the application is the block of
    [analyzeFood] that turns the text of the model's reply into an
    [AnalysisResult].  This file embeds that block function by function and
    proves the properties the specification states about it.

    JavaScript strings are sequences of UTF-16 code units; a code unit is a
    natural number here and a string a list of them, so that the regular
    expressions and [trim], [split], [includes], [toLowerCase] and [parseInt]
    can be written out on the representation the engine works on. *)

From Stdlib Require Import String Ascii List NArith ZArith Bool Lia Permutation.
Import ListNotations.

Local Open Scope N_scope.

(** ** Strings *)

Module JS.

Definition char := N.
Definition str := list char.

(** A literal of the source, written as a Rocq string of Basic Latin
    characters. *)
Definition lit (s : string) : str := map N_of_ascii (list_ascii_of_string s).

Definition ch (a : ascii) : char := N_of_ascii a.

Definition NL : char := 0x0A.
Definition PIPE : char := 0x7C.

(** Several lines joined by line feeds, to write a multi-line report. *)
Fixpoint joinLines (ls : list string) : str :=
  match ls with
  | [] => []
  | [l] => lit l
  | l :: rest => lit l ++ NL :: joinLines rest
  end.

(** [WhiteSpace] and [LineTerminator] of ECMAScript: what [\s] matches and
    what [trim] removes. *)
Definition isWhiteSpace (c : char) : bool :=
  ((0x09 <=? c) && (c <=? 0x0D))
  || (c =? 0x20) || (c =? 0xA0) || (c =? 0x1680)
  || ((0x2000 <=? c) && (c <=? 0x200A))
  || (c =? 0x2028) || (c =? 0x2029) || (c =? 0x202F) || (c =? 0x205F)
  || (c =? 0x3000) || (c =? 0xFEFF).

(** [LineTerminator]: what [.] does not match (the regular expressions of
    the source have no [s] flag). *)
Definition isLineTerminator (c : char) : bool :=
  (c =? 0x0A) || (c =? 0x0D) || (c =? 0x2028) || (c =? 0x2029).

(** [\d] *)
Definition isDigit (c : char) : bool := (0x30 <=? c) && (c <=? 0x39).

Fixpoint dropWhile (p : char -> bool) (s : str) : str :=
  match s with
  | [] => []
  | c :: s' => if p c then dropWhile p s' else s
  end.

Fixpoint takeWhile (p : char -> bool) (s : str) : str :=
  match s with
  | [] => []
  | c :: s' => if p c then c :: takeWhile p s' else []
  end.

Definition trimStart (s : str) : str := dropWhile isWhiteSpace s.
Definition trimEnd (s : str) : str := rev (dropWhile isWhiteSpace (rev s)).

(** [String.prototype.trim] *)
Definition trim (s : str) : str := trimEnd (trimStart s).

(** [String.prototype.split] with a separator of one code unit: the pieces
    between the separators, so one more piece than there are separators (and
    the empty string splits into one empty piece). *)
Fixpoint split (sep : char) (s : str) : list str :=
  match s with
  | [] => [[]]
  | c :: s' =>
      if c =? sep then [] :: split sep s'
      else match split sep s' with
           | [] => [[c]]
           | p :: ps => (c :: p) :: ps
           end
  end.

Fixpoint startsWith (s p : str) {struct p} : bool :=
  match p, s with
  | [], _ => true
  | _ :: _, [] => false
  | a :: p', b :: s' => (a =? b) && startsWith s' p'
  end.

(** [String.prototype.includes]: [sub] occurs in [s] at some position. *)
Fixpoint includes (s sub : str) : bool :=
  startsWith s sub ||
  match s with
  | [] => false
  | _ :: s' => includes s' sub
  end.

(** [String.prototype.toLowerCase].  Only the Basic Latin letters are mapped;
    every other code unit is kept.  The source looks at a lower-cased string
    only through [includes] with one of the keywords [harmful], [bad],
    [danger], [concern], [healthy], [good], [safe] and [none], and the engine's
    full Unicode mapping agrees with this one on those tests: outside Basic
    Latin only U+212A (to [k]) and U+0130 (to [i] and U+0307) lower-case to a
    Basic Latin letter, and no keyword has a [k] or an [i]. *)
Definition lowerChar (c : char) : char :=
  if (0x41 <=? c) && (c <=? 0x5A) then c + 0x20 else c.

Definition toLowerCase (s : str) : str := map lowerChar s.

(** [Canonicalize] of a case-insensitive regular expression without the [u]
    flag, as far as a pattern of Basic Latin characters can tell: a lower-case
    Basic Latin letter is compared as its upper-case letter, and a code unit
    from 128 on never canonicalizes to one below 128. *)
Definition canonicalize (c : char) : char :=
  if (0x61 <=? c) && (c <=? 0x7A) then c - 0x20 else c.

(** The value of [a || b] for a string [a]: the empty string is falsy. *)
Definition orElse (a b : str) : str :=
  match a with
  | [] => b
  | _ :: _ => a
  end.

(** The same for a value that may be [undefined] or [null]. *)
Definition orElseOpt (a : option str) (b : str) : str :=
  match a with
  | Some ((_ :: _) as s) => s
  | _ => b
  end.

(** *** [parseInt] without a radix argument

    The result is the mathematical integer the digits denote ([None] for
    [NaN]); the engine returns the Number nearest to it, which is the integer
    itself up to 2^53. *)
Definition digitValue (c : char) : option N :=
  if (0x30 <=? c) && (c <=? 0x39) then Some (c - 0x30)
  else if (0x61 <=? c) && (c <=? 0x7A) then Some (c - 0x61 + 10)
  else if (0x41 <=? c) && (c <=? 0x5A) then Some (c - 0x41 + 10)
  else None.

Definition radixDigit (R : N) (c : char) : option N :=
  match digitValue c with
  | Some d => if d <? R then Some d else None
  | None => None
  end.

Fixpoint digitsPrefix (R : N) (s : str) : list N :=
  match s with
  | [] => []
  | c :: s' =>
      match radixDigit R c with
      | Some d => d :: digitsPrefix R s'
      | None => []
      end
  end.

Definition mathInt (R : N) (ds : list N) : N :=
  fold_left (fun acc d => acc * R + d) ds 0.

Definition parseInt (input : str) : option Z :=
  let S := trimStart input in
  let '(sign, S1) :=
    match S with
    | c :: r =>
        if c =? ch "-" then ((-1)%Z, r)
        else if c =? ch "+" then (1%Z, r)
        else (1%Z, S)
    | [] => (1%Z, S)
    end in
  let '(R, S2) :=
    match S1 with
    | a :: b :: r =>
        if (a =? ch "0") && ((b =? ch "x") || (b =? ch "X")) then (16, r)
        else (10, S1)
    | _ => (10, S1)
    end in
  match digitsPrefix R S2 with
  | [] => None
  | ds => Some (sign * Z.of_N (mathInt R ds))%Z
  end.

End JS.

Import JS.

(** ** The regular expressions of the source

    The patterns of [analyzeFood] are kept as syntax and run by a
    backtracking matcher with continuations, in the way the matcher of
    ECMAScript is laid out: an alternative is tried after the one before it
    has failed together with all that follows, a greedy star gives back one
    code unit at a time, a lazy one takes one more at a time.  The patterns
    repeat classes of code units only, and have at most one group. *)

Module Regex.

Inductive regex :=
| Class (p : char -> bool)
| Seq (a b : regex)
| Alt (a b : regex)
| Star (greedy : bool) (p : char -> bool)
| Group (a : regex)
| Ahead (a : regex)
| End
| Empty.

(** A code unit of the pattern under the [i] flag. *)
Definition Chr (a : char) : regex :=
  Class (fun c => canonicalize c =? canonicalize a).

(** A run of literal code units. *)
Definition Lit (p : str) : regex := fold_right (fun a r => Seq (Chr a) r) Empty p.

(** [A|B|...|last] *)
Definition Alts (rs : list regex) (last : regex) : regex := fold_right Alt last rs.

(** [[\s\S]] *)
Definition anyChar (c : char) : bool := true.

(** [.] *)
Definition notLineTerminator (c : char) : bool := negb (isLineTerminator c).

(** Where a match stands: the text still to read, and group 1 (the empty
    string as long as the group has not been closed; group 1 is closed in
    every match of the patterns below). *)
Definition MatchState : Type := str * str.

Fixpoint starGreedy (p : char -> bool) (k : str -> option MatchState) (s : str)
  : option MatchState :=
  match s with
  | c :: s' =>
      if p c then
        match starGreedy p k s' with
        | Some out => Some out
        | None => k s
        end
      else k s
  | [] => k s
  end.

Fixpoint starLazy (p : char -> bool) (k : str -> option MatchState) (s : str)
  : option MatchState :=
  match k s with
  | Some out => Some out
  | None =>
      match s with
      | c :: s' => if p c then starLazy p k s' else None
      | [] => None
      end
  end.

(** [run r s group1 k]: match [r] at the head of [s], then go on with [k]. *)
Fixpoint run (r : regex) (s : str) (group1 : str)
         (k : str -> str -> option MatchState) : option MatchState :=
  match r with
  | Class p =>
      match s with
      | c :: s' => if p c then k s' group1 else None
      | [] => None
      end
  | Seq a b => run a s group1 (fun s' g => run b s' g k)
  | Alt a b =>
      match run a s group1 k with
      | Some out => Some out
      | None => run b s group1 k
      end
  | Star true p => starGreedy p (fun s' => k s' group1) s
  | Star false p => starLazy p (fun s' => k s' group1) s
  | Group a =>
      run a s group1
        (fun s' _ => k s' (firstn (List.length s - List.length s') s))
  | Ahead a =>
      match run a s group1 (fun s' g => Some (s', g)) with
      | Some (_, g) => k s g
      | None => None
      end
  | End =>
      match s with
      | [] => k s group1
      | _ :: _ => None
      end
  | Empty => k s group1
  end.

(** A match that starts at the head of [s]: what is left after it, and
    group 1. *)
Definition matchAt (r : regex) (s : str) : option MatchState :=
  run r s [] (fun s' g => Some (s', g)).

(** The leftmost start position at which [m] matches. *)
Fixpoint search {A : Type} (m : str -> option A) (s : str) : option A :=
  match m s with
  | Some r => Some r
  | None =>
      match s with
      | [] => None
      | _ :: s' => search m s'
      end
  end.

(** [text.match(r)] for a pattern without the [g] flag, then group 1 of the
    match: [None] when the pattern matches nowhere. *)
Definition matchGroup1 (r : regex) (text : str) : option str :=
  search (fun s => match matchAt r s with
                   | Some (_, g) => Some g
                   | None => None
                   end) text.

(** [s.replace(r, '')] for a pattern that starts with [^] and has neither
    the [g] nor the [m] flag: [body] is the pattern after the [^], and the
    only place it can match is the start of [s]. *)
Definition replaceAtStart (body : regex) (s : str) : str :=
  match matchAt body s with
  | Some (rest, _) => rest
  | None => s
  end.

(** *** What the patterns of the source come to

    The pieces below say what the matcher computes on the patterns of the
    source; the equations are proved further down. *)

(** The literal [p] at the head of [s], compared case-insensitively: what is
    left of [s] after it. *)
Fixpoint literal (p s : str) : option str :=
  match p with
  | [] => Some s
  | a :: p' =>
      match s with
      | [] => None
      | b :: s' =>
          if canonicalize b =? canonicalize a then literal p' s' else None
      end
  end.

(** A greedy [\s*] before something that cannot fail. *)
Definition spaces (s : str) : str := dropWhile isWhiteSpace s.

(** A greedy group of [.] at the end of a pattern: the rest of the line. *)
Definition restOfLine (s : str) : str := takeWhile notLineTerminator s.

(** A lazy group of [[\s\S]] followed by [k]: the shortest capture after
    which [k] matches. *)
Fixpoint lazyUntil {A : Type} (k : str -> option A) (s : str) : option str :=
  match k s with
  | Some _ => Some []
  | None =>
      match s with
      | [] => None
      | c :: s' =>
          match lazyUntil k s' with
          | Some cap => Some (c :: cap)
          | None => None
          end
      end
  end.

(** A look-ahead for one of some markers or the end of the text. *)
Definition lookahead (markers : list str) (s : str) : option unit :=
  if existsb (fun p => match literal p s with Some _ => true | None => false end)
       markers
     || match s with [] => true | _ :: _ => false end
  then Some tt else None.

(** A pattern that starts with the literal [p] and goes on with [k], tried
    from the left. *)
Definition afterLiteral {A : Type} (p : str) (k : str -> option A) (text : str)
  : option A :=
  search (fun s => match literal p s with Some r => k r | None => None end) text.

End Regex.

Import Regex.

(** ** Types *)

Inductive Status := healthy | harmful | neutral.

Record Ingredient := {
  name : str;
  quantity : str;
  status : Status;
  description : str
}.

Record Source := { title : str; uri : str }.

(** [fssaiNotice?: string] and [healthScore?: number] are optional in the
    interface. *)
Record AnalysisResult := {
  productName : str;
  summary : str;
  ingredients : list Ingredient;
  sources : list Source;
  fssaiNotice : option str;
  healthScore : option Z
}.

(** A grounding chunk of the reply: [{ web?: { title, uri } }]. *)
Record Web := { web_title : str; web_uri : str }.
Record Chunk := { web : option Web }.

(** ** The parsing logic of [analyzeFood] *)

Definition LIST_ERROR : str :=
  lit "Ingredient list could not be parsed. Please verify the product name.".
Definition NO_DATA_ERROR : str :=
  lit "No data received from the analyzer. Please try again.".
Definition RATE_LIMIT_ERROR : str :=
  lit "Rate limit exceeded. Gemini Flash Lite has higher limits, but the API may still be busy. Please wait a moment and try again.".
Definition GENERIC_ERROR : str :=
  lit "Something went wrong while scanning the product.".
Definition DEFAULT_SUMMARY : str := lit "Analysis complete.".
Definition DEFAULT_QUANTITY : str := lit "N/A".
Definition DEFAULT_DESCRIPTION : str :=
  lit "Major component found in product label.".

(** [groundingChunks.filter(chunk => chunk.web).map(...)] *)
Definition sourcesOf (groundingChunks : list Chunk) : list Source :=
  flat_map
    (fun chunk =>
       match web chunk with
       | Some w => [ {| title := web_title w; uri := web_uri w |} ]
       | None => []
       end)
    groundingChunks.

(** [new RegExp(`${key}:\\s*(.* )`, 'i')] (with no space in the group).  Both
    calls of [extractValue] pass a key of letters and underscores, which the
    pattern reads as a literal. *)
Definition valuePattern (key : str) : regex :=
  Seq (Lit (key ++ lit ":"))
      (Seq (Star true isWhiteSpace) (Group (Star true notLineTerminator))).

(** [extractValue]: group 1 of the match, trimmed, or [null]. *)
Definition extractValue (text key : str) : option str :=
  match matchGroup1 (valuePattern key) text with
  | Some group1 => Some (trim group1)
  | None => None
  end.

(** [productName = extractValue("PRODUCT") || query] *)
Definition productNameOf (query text : str) : str :=
  orElseOpt (extractValue text (lit "PRODUCT")) query.

(** [parsedScore = parseInt(extractValue("HEALTH_SCORE") || "50")];
    [healthScore = isNaN(parsedScore) ? 50 : parsedScore] *)
Definition healthScoreOf (text : str) : Z :=
  let parsedScore :=
    parseInt (orElseOpt (extractValue text (lit "HEALTH_SCORE")) (lit "50")) in
  match parsedScore with
  | None => 50%Z
  | Some n => n
  end.

(** [/SUMMARY:\s*([\s\S]*?)(?=HEALTH_SCORE|FSSAI_NOTICE|LIST_START|$)/i] *)
Definition summaryPattern : regex :=
  Seq (Lit (lit "SUMMARY:"))
      (Seq (Star true isWhiteSpace)
           (Seq (Group (Star false anyChar))
                (Ahead (Alts [Lit (lit "HEALTH_SCORE"); Lit (lit "FSSAI_NOTICE");
                              Lit (lit "LIST_START")] End)))).

Definition summaryMatch (text : str) : option str := matchGroup1 summaryPattern text.

Definition summaryOf (text : str) : str :=
  match summaryMatch text with
  | Some group1 => trim group1
  | None => DEFAULT_SUMMARY
  end.

(** [/FSSAI_NOTICE:\s*([\s\S]*?)(?=LIST_START|$)/i] *)
Definition fssaiPattern : regex :=
  Seq (Lit (lit "FSSAI_NOTICE:"))
      (Seq (Star true isWhiteSpace)
           (Seq (Group (Star false anyChar))
                (Ahead (Alts [Lit (lit "LIST_START")] End)))).

Definition fssaiMatch (text : str) : option str := matchGroup1 fssaiPattern text.

(** [fssaiNotice] starts as the empty string and is assigned only when the
    pattern matches and the capture has no [none] in it. *)
Definition fssaiNoticeOf (text : str) : str :=
  match fssaiMatch text with
  | Some group1 =>
      if negb (includes (toLowerCase group1) (lit "none")) then trim group1
      else lit ""
  | None => lit ""
  end.

(** [/LIST_START([\s\S]*?)LIST_END/i] *)
Definition listPattern : regex :=
  Seq (Lit (lit "LIST_START"))
      (Seq (Group (Star false anyChar)) (Lit (lit "LIST_END"))).

Definition listMatch (text : str) : option str := matchGroup1 listPattern text.

(** [rows = listMatch ? listMatch[1].trim().split('\n') : []] *)
Definition tableRows (text : str) : list str :=
  match listMatch text with
  | Some group1 => split NL (trim group1)
  | None => []
  end.

(** The character class [[-*•\d.]] *)
Definition isListMarker (c : char) : bool :=
  (c =? ch "-") || (c =? ch "*") || (c =? 0x2022) || isDigit c || (c =? ch ".").

(** [/^[-*•\d.]\s*/], after its [^] *)
Definition markerPattern : regex := Seq (Class isListMarker) (Star true isWhiteSpace).

(** [row.replace(/^[-*•\d.]\s*/, '')] *)
Definition stripMarker (row : str) : str := replaceAtStart markerPattern row.

(** The status of an ingredient, from the third field of its row. *)
Definition classify (statusSource : str) : Status :=
  let statusRaw := toLowerCase statusSource in
  if includes statusRaw (lit "harmful") || includes statusRaw (lit "bad")
     || includes statusRaw (lit "danger") || includes statusRaw (lit "concern")
  then harmful
  else if includes statusRaw (lit "healthy") || includes statusRaw (lit "good")
          || includes statusRaw (lit "safe")
  then healthy
  else neutral.

(** The fields of a row: [cleanRow.split('|').map(p => p.trim())] *)
Definition rowParts (row : str) : list str :=
  let cleanRow := trim (stripMarker row) in
  map trim (split PIPE cleanRow).

(** The body of the loop over the rows: the ingredient that is pushed, if
    one is. *)
Definition parseRow (row : str) : option Ingredient :=
  let parts := rowParts row in
  if (3 <=? length parts)%nat then
    Some {| name := nth 0 parts [];
            quantity := orElse (nth 1 parts []) DEFAULT_QUANTITY;
            status := classify (nth 2 parts []);
            description := orElseOpt (nth_error parts 3) DEFAULT_DESCRIPTION |}
  else None.

Definition rowStep (ingredients : list Ingredient) (row : str) : list Ingredient :=
  match parseRow row with
  | Some ingredient => ingredients ++ [ingredient]
  | None => ingredients
  end.

Definition ingredientsOf (text : str) : list Ingredient :=
  fold_left rowStep (tableRows text) [].

(** What the block computes: the record given to [setResult], or the message
    of the [Error] it throws. *)
Inductive Outcome :=
| Returned (r : AnalysisResult)
| Thrown (message : str).

Definition parse (query text : str) (groundingChunks : list Chunk) : Outcome :=
  let sources := sourcesOf groundingChunks in
  let productName := productNameOf query text in
  let healthScore := healthScoreOf text in
  let summary := summaryOf text in
  let fssaiNotice := fssaiNoticeOf text in
  let ingredients := ingredientsOf text in
  if (length ingredients =? 0)%nat then Thrown LIST_ERROR
  else
    Returned {| productName := productName;
                summary := summary;
                ingredients := ingredients;
                sources := sources;
                fssaiNotice := Some fssaiNotice;
                healthScore := Some healthScore |}.

(** ** [analyzeFood] as a step of the component's state *)

Record AppState := {
  query : str;
  loading : bool;
  result : option AnalysisResult;
  error : option str
}.

(** What the call of the model gives back: a reply, whose text and grounding
    chunks may be missing, or a rejection with the message of its error. *)
Record Response := {
  text : option str;
  groundingChunks : option (list Chunk)
}.

Inductive Upstream :=
| Replied (response : Response)
| Rejected (message : option str).

Definition isRateLimit (message : option str) : bool :=
  match message with
  | Some m => includes m (lit "429") || includes m (lit "RESOURCE_EXHAUSTED")
  | None => false
  end.

Definition analyzeFood (st : AppState) (upstream : Upstream) : AppState :=
  match trim (query st) with
  | [] => st
  | _ :: _ =>
      let tried : AnalysisResult + option str :=
        match upstream with
        | Rejected message => inr message
        | Replied response =>
            match orElseOpt (text response) (lit "") with
            | [] => inr (Some NO_DATA_ERROR)
            | (_ :: _) as text =>
                let chunks :=
                  match groundingChunks response with
                  | Some cs => cs
                  | None => []
                  end in
                match parse (query st) text chunks with
                | Returned r => inl r
                | Thrown message => inr (Some message)
                end
            end
        end in
      match tried with
      | inl r =>
          {| query := query st; loading := false; result := Some r; error := None |}
      | inr message =>
          {| query := query st; loading := false; result := None;
             error := Some (if isRateLimit message then RATE_LIMIT_ERROR
                            else orElseOpt message GENERIC_ERROR) |}
      end
  end.

(** The example report of the specification. *)
Definition exampleReport : str :=
  joinLines
    [ "PRODUCT: Test Snack";
      "SUMMARY: High in sugar.";
      "HEALTH_SCORE: 35";
      "FSSAI_NOTICE: None";
      "LIST_START";
      "Sugar | 35g per 100g | harmful | Excess refined sugar";
      "Rice Flour | 40% | healthy | Whole grain base";
      "LIST_END" ]%string.

(** ** Vocabulary of the statements

    What the specification says about a text, said without the functions
    above. *)

(** Two strings that a case-insensitive pattern takes for the same. *)
Definition sameCI (a b : str) : Prop := map canonicalize a = map canonicalize b.

(** [p] occurs in [text], in any case, right after the prefix [pre]. *)
Definition OccursAt (p text pre : str) : Prop :=
  exists m post, text = pre ++ m ++ post /\ sameCI m p.

Definition Occurs (p text : str) : Prop := exists pre, OccursAt p text pre.

(** The first occurrence of [p] in [text] has [pre] before it and [rest]
    after it. *)
Definition FirstOccurrence (p text pre rest : str) : Prop :=
  (exists m, text = pre ++ m ++ rest /\ sameCI m p) /\
  forall pre', OccursAt p text pre' -> (List.length pre <= List.length pre')%nat.

Definition Substring (sub s : str) : Prop := exists pre post, s = pre ++ sub ++ post.

(** The first occurrence, computed: what is before it and what is after. *)
Fixpoint findFirst (p text : str) : option (str * str) :=
  match literal p text with
  | Some rest => Some ([], rest)
  | None =>
      match text with
      | [] => None
      | c :: t =>
          match findFirst p t with
          | Some (pre, rest) => Some (c :: pre, rest)
          | None => None
          end
      end
  end.

(** The keywords of the classifier, in the order of the source. *)
Definition harmfulKeywords : list str :=
  [lit "harmful"; lit "bad"; lit "danger"; lit "concern"].
Definition healthyKeywords : list str :=
  [lit "healthy"; lit "good"; lit "safe"].

(** The lower-cased text contains one of the keywords. *)
Definition HasKeyword (keywords : list str) (s : str) : Prop :=
  exists kw, In kw keywords /\ Substring kw (toLowerCase s).

(** The ingredient of each accepted row, rejected rows left out. *)
Definition acceptedRows (rows : list str) : list Ingredient :=
  flat_map
    (fun row => match parseRow row with Some i => [i] | None => [] end)
    rows.

(** The row mapping as the specification words it: the placeholder stands
    in for the description only when the row has no fourth field. *)
Definition parseRow_asSpecified (row : str) : option Ingredient :=
  let parts := rowParts row in
  if (3 <=? List.length parts)%nat then
    Some {| name := nth 0 parts [];
            quantity := orElse (nth 1 parts []) DEFAULT_QUANTITY;
            status := classify (nth 2 parts []);
            description :=
              match nth_error parts 3 with
              | Some d => d
              | None => DEFAULT_DESCRIPTION
              end |}
  else None.

(** The lines of a text, ended by any line terminator. *)
Fixpoint linesOf (s : str) : list str :=
  match s with
  | [] => [[]]
  | c :: s' =>
      if isLineTerminator c then [] :: linesOf s'
      else match linesOf s' with
           | [] => [[c]]
           | l :: ls => (c :: l) :: ls
           end
  end.

Fixpoint firstAnchored (p : str) (ls : list str) : option str :=
  match ls with
  | [] => None
  | l :: ls' =>
      match literal p l with
      | Some r => Some (trim r)
      | None => firstAnchored p ls'
      end
  end.

(** Scalar extraction as the specification words it: the first line that
    starts with [KEY:], and the rest of that line, trimmed. *)
Definition extractValue_lineAnchored (text key : str) : option str :=
  firstAnchored (key ++ lit ":") (linesOf text).

(** A result without a notice, whether the field is missing or holds the
    empty string. *)
Definition carriesNoNotice (r : AnalysisResult) : Prop :=
  match fssaiNotice r with
  | None => True
  | Some s => s = []
  end.

(** The [FSSAI_NOTICE] span is absent, or what it captures has [none] in it
    in any case. *)
Definition NoticeAbsentOrNone (text : str) : Prop :=
  ~ Occurs (lit "FSSAI_NOTICE:") text \/
  exists group1, fssaiMatch text = Some group1 /\
                 Substring (lit "none") (toLowerCase group1).

(** The invariant of the data model as the specification words it. *)
Definition resultInvariant_asSpecified (r : AnalysisResult) : Prop :=
  ingredients r <> [] /\
  exists n, healthScore r = Some n /\ (0 <= n <= 100)%Z.

(** Reports used as examples below. *)
Definition minimalTable : list string :=
  [ "LIST_START"; "Sugar | 10g | harmful | reason"; "LIST_END" ]%string.

Definition emptyTableReport : str :=
  joinLines [ "PRODUCT: Test Snack"; "HEALTH_SCORE: 35"; "LIST_START"; "LIST_END" ]%string.

Definition noTableReport : str :=
  joinLines [ "PRODUCT: Test Snack"; "SUMMARY: High in sugar."; "HEALTH_SCORE: 35";
              "FSSAI_NOTICE: None" ]%string.

Definition score250Report : str := joinLines ("HEALTH_SCORE: 250" :: minimalTable)%string.
Definition scoreNegativeReport : str := joinLines ("HEALTH_SCORE: -5" :: minimalTable)%string.
Definition scoreAbcReport : str := joinLines ("HEALTH_SCORE: abc" :: minimalTable)%string.
Definition noticeNoneReport : str := joinLines ("FSSAI_NOTICE: None" :: minimalTable)%string.
Definition noticeNoneDetectedReport : str :=
  joinLines ("FSSAI_NOTICE: none detected" :: minimalTable)%string.
Definition noticeDyeReport : str :=
  joinLines ("FSSAI_NOTICE: Contains banned dye X" :: minimalTable)%string.
Definition noticeBlankReport : str := joinLines ("FSSAI_NOTICE:" :: minimalTable)%string.
Definition midLineKeyReport : str :=
  joinLines [ "Our PRODUCT: Wrong"; "PRODUCT: Right" ]%string.
Definition longerWordKeyReport : str :=
  joinLines [ "OLD_HEALTH_SCORE: 10"; "HEALTH_SCORE: 35" ]%string.
Definition ordinalTableReport : str :=
  joinLines [ "LIST_START"; "1. Sugar | 10g | harmful | reason";
              "12. Sugar | 10g | harmful | reason"; "LIST_END" ]%string.

(** ** The rest of the component: what is shown *)

(** [getScoreColor] and [getScoreBg], the classes of the score badge and of
    the bar under it. *)
Definition getScoreColor (score : Z) : str :=
  if (70 <=? score)%Z then lit "text-emerald-600 border-emerald-100 bg-emerald-50"
  else if (40 <=? score)%Z then lit "text-orange-600 border-orange-100 bg-orange-50"
  else lit "text-rose-600 border-rose-100 bg-rose-50".

Definition getScoreBg (score : Z) : str :=
  if (70 <=? score)%Z then lit "bg-emerald-600"
  else if (40 <=? score)%Z then lit "bg-orange-600"
  else lit "bg-rose-600".

(** [result.healthScore || 50]: a missing score and the score 0 are falsy. *)
Definition scoreOrDefault (r : AnalysisResult) : Z :=
  match healthScore r with
  | Some 0%Z => 50%Z
  | Some n => n
  | None => 50%Z
  end.

(** The classes the badge and the bar of a result are drawn with. *)
Definition badgeClasses (r : AnalysisResult) : str := getScoreColor (scoreOrDefault r).
Definition barClasses (r : AnalysisResult) : str := getScoreBg (scoreOrDefault r).




(** A string of the state that may be [null], used as a condition. *)
Definition truthy (e : option str) : bool :=
  match e with
  | Some (_ :: _) => true
  | _ => false
  end.

(** [result.fssaiNotice && ...]: the regulatory alert. *)
Definition showNotice (r : AnalysisResult) : bool := truthy (fssaiNotice r).

(** The four parts of the page that depend on the state:
    [!loading && !result && !error], [loading], [error], [result]. *)
Definition showSuggestions (st : AppState) : bool :=
  negb (loading st)
  && match result st with Some _ => false | None => true end
  && negb (truthy (error st)).
Definition showSpinner (st : AppState) : bool := loading st.
Definition showError (st : AppState) : bool := truthy (error st).
Definition showResult (st : AppState) : bool :=
  match result st with Some _ => true | None => false end.

(** The [New Analysis] button: [setQuery(''); setResult(null)]. *)
Definition newAnalysis (st : AppState) : AppState :=
  {| query := lit ""; loading := loading st; result := None; error := error st |}.

(** [chunk.web] as a condition. *)
Definition hasWeb (chunk : Chunk) : bool :=
  match web chunk with Some _ => true | None => false end.

(** * Properties *)

(** ** Strings *)

Section StringFacts.

Lemma startsWith_spec (s p : str) :
  startsWith s p = true <-> exists post, s = p ++ post.
Proof.
  revert s; induction p as [|a p IH]; intros s; simpl.
  - split; [intros _; now exists s | reflexivity].
  - destruct s as [|b s].
    + split; [discriminate | intros [post H]; discriminate].
    + rewrite andb_true_iff, N.eqb_eq, IH. split.
      * intros [-> [post ->]]. now exists post.
      * intros [post H]. injection H as -> ->. split; [reflexivity | now exists post].
Qed.

(** [includes] is the substring test. *)
Lemma includes_spec (s sub : str) :
  includes s sub = true <-> exists pre post, s = pre ++ sub ++ post.
Proof.
  induction s as [|c s IH].
  - simpl. rewrite orb_false_r, startsWith_spec. split.
    + intros [post H]. now exists [], post.
    + intros [pre [post H]]. destruct pre; [now exists post | discriminate].
  - cbn [includes]. rewrite orb_true_iff, startsWith_spec, IH. split.
    + intros [[post H] | [pre [post H]]].
      * now exists [], post.
      * exists (c :: pre), post. now rewrite H.
    + intros [pre [post H]]. destruct pre as [|c' pre].
      * left. now exists post.
      * right. injection H as _ H. now exists pre, post.
Qed.

Lemma includes_false (s sub : str) :
  includes s sub = false <-> ~ exists pre post, s = pre ++ sub ++ post.
Proof.
  rewrite <- includes_spec. destruct (includes s sub); split; congruence.
Qed.

Lemma toLowerCase_app (a b : str) :
  toLowerCase (a ++ b) = toLowerCase a ++ toLowerCase b.
Proof. apply map_app. Qed.

(** One more piece than there are separators. *)
Lemma split_length (sep : char) (s : str) :
  List.length (split sep s) = S (count_occ N.eq_dec s sep).
Proof.
  induction s as [|c s IH]; [reflexivity|].
  cbn [split count_occ]. destruct (N.eqb_spec c sep) as [->|Hne].
  - destruct (N.eq_dec sep sep) as [_|F]; [|contradiction]. simpl. now rewrite IH.
  - destruct (N.eq_dec c sep) as [F|_]; [contradiction|].
    destruct (split sep s); simpl in *; [discriminate | exact IH].
Qed.

Lemma split_not_nil (sep : char) (s : str) : split sep s <> [].
Proof.
  intros H. pose proof (split_length sep s) as L. rewrite H in L. discriminate.
Qed.

Lemma count_occ_dropWhile (p : char -> bool) (sep : char) (s : str) :
  p sep = false ->
  count_occ N.eq_dec (dropWhile p s) sep = count_occ N.eq_dec s sep.
Proof.
  intros Hp. induction s as [|c s IH]; [reflexivity|].
  cbn [dropWhile]. destruct (p c) eqn:E; [|reflexivity].
  rewrite IH. cbn [count_occ]. destruct (N.eq_dec c sep) as [->|_]; congruence.
Qed.

Lemma count_occ_trim (sep : char) (s : str) :
  isWhiteSpace sep = false ->
  count_occ N.eq_dec (trim s) sep = count_occ N.eq_dec s sep.
Proof.
  intros Hp. unfold trim, trimEnd, trimStart.
  now rewrite count_occ_rev, count_occ_dropWhile, count_occ_rev, count_occ_dropWhile.
Qed.

Lemma dropWhile_head (p : char -> bool) (s : str) (c : char) (r : str) :
  dropWhile p s = c :: r -> p c = false.
Proof.
  induction s as [|d s IH]; [discriminate|].
  cbn [dropWhile]. destruct (p d) eqn:E; [exact IH|].
  intros H; injection H as -> _. exact E.
Qed.

Lemma dropWhile_id (p : char -> bool) (c : char) (r : str) :
  p c = false -> dropWhile p (c :: r) = c :: r.
Proof. intros H. cbn [dropWhile]. now rewrite H. Qed.

Lemma dropWhile_nil_iff (p : char -> bool) (s : str) :
  dropWhile p s = [] <-> forallb p s = true.
Proof.
  induction s as [|c s IH]; [simpl; tauto|].
  cbn [dropWhile forallb]. destruct (p c); simpl; [exact IH|].
  split; discriminate.
Qed.

(** A string that does not start with white space keeps its first code unit
    through [trim], so it is trimmed to the empty string only if it is
    empty. *)
Lemma trim_nil_of_head (s : str) :
  dropWhile isWhiteSpace s = s -> trim s = [] -> s = [].
Proof.
  intros Hs Ht. destruct s as [|c r]; [reflexivity|].
  assert (Hc : isWhiteSpace c = false) by (eapply dropWhile_head; exact Hs).
  unfold trim, trimStart, trimEnd in Ht. rewrite Hs in Ht.
  apply (f_equal (@rev char)) in Ht. rewrite rev_involutive in Ht. simpl in Ht.
  apply dropWhile_nil_iff in Ht. rewrite forallb_app in Ht.
  apply andb_true_iff in Ht as [_ Ht]. simpl in Ht. rewrite Hc in Ht. discriminate.
Qed.

Lemma dropWhile_idem (p : char -> bool) (s : str) :
  dropWhile p (dropWhile p s) = dropWhile p s.
Proof.
  induction s as [|c s IH]; [reflexivity|].
  cbn [dropWhile]. destruct (p c) eqn:E; [exact IH|].
  cbn [dropWhile]. now rewrite E.
Qed.

End StringFacts.

(** ** The pieces of the regular expressions *)

Section RegexFacts.

Lemma sameCI_length (a b : str) : sameCI a b -> List.length a = List.length b.
Proof.
  unfold sameCI. intros H. apply (f_equal (@List.length char)) in H.
  now rewrite !length_map in H.
Qed.

Lemma literal_spec (p s r : str) :
  literal p s = Some r <-> exists m, s = m ++ r /\ sameCI m p.
Proof.
  revert s; induction p as [|a p IH]; intros s; cbn [literal].
  - split.
    + intros H; injection H as ->. now exists [].
    + intros [m [-> H]]. apply sameCI_length in H.
      destruct m; [reflexivity | discriminate].
  - destruct s as [|b s].
    + split; [discriminate|]. intros [m [H1 H2]].
      apply sameCI_length in H2. destruct m; discriminate.
    + destruct (N.eqb_spec (canonicalize b) (canonicalize a)) as [E|E].
      * rewrite IH. split.
        -- intros [m [-> H]]. exists (b :: m). split; [reflexivity|].
           unfold sameCI in *. cbn [map]. now rewrite E, H.
        -- intros [m [H1 H2]]. destruct m as [|b' m].
           ++ apply sameCI_length in H2. discriminate.
           ++ injection H1 as <- ->. exists m. split; [reflexivity|].
              unfold sameCI in *. cbn [map] in H2. now injection H2.
      * split; [discriminate|]. intros [m [H1 H2]]. destruct m as [|b' m].
        -- apply sameCI_length in H2. discriminate.
        -- injection H1 as <- ->. unfold sameCI in H2. cbn [map] in H2.
           injection H2 as H2 _. contradiction.
Qed.

Lemma literal_None (p s : str) :
  literal p s = None <-> ~ exists m r, s = m ++ r /\ sameCI m p.
Proof.
  split.
  - intros H [m [r Hm]]. assert (L : literal p s = Some r) by (apply literal_spec; eauto).
    congruence.
  - intros H. destruct (literal p s) as [r|] eqn:E; [|reflexivity].
    exfalso. apply H. apply literal_spec in E as [m Hm]. eauto.
Qed.

Lemma occursAt_literal (p text pre : str) :
  OccursAt p text pre <->
  exists post, text = pre ++ post /\ literal p post <> None.
Proof.
  split.
  - intros [m [post [-> H]]]. exists (m ++ post). split; [reflexivity|].
    assert (L : literal p (m ++ post) = Some post) by (apply literal_spec; eauto).
    congruence.
  - intros [post [-> H]]. destruct (literal p post) as [r|] eqn:E; [|congruence].
    apply literal_spec in E as [m [-> Hm]]. now exists m, r.
Qed.

(** [search] fails when the pattern matches at no position. *)
Lemma search_None {A : Type} (m : str -> option A) (s : str) :
  search m s = None <-> forall pre post, s = pre ++ post -> m post = None.
Proof.
  induction s as [|c s IH]; cbn [search].
  - destruct (m []) eqn:E.
    + split; [discriminate|]. intros H. rewrite <- E. now apply (H [] []).
    + split; [|reflexivity]. intros _ pre post H.
      symmetry in H. apply app_eq_nil in H as [_ ->]. exact E.
  - destruct (m (c :: s)) eqn:E.
    + split; [discriminate|]. intros H. rewrite <- E. now apply (H []).
    + rewrite IH. split.
      * intros H pre post Hs. destruct pre as [|c' pre].
        -- simpl in Hs. now subst post.
        -- injection Hs as _ Hs. now apply (H pre).
      * intros H pre post Hs. apply (H (c :: pre)). now rewrite Hs.
Qed.

(** [search] gives the match at the leftmost position that has one. *)
Lemma search_Some {A : Type} (m : str -> option A) (s : str) (r : A) :
  search m s = Some r <->
  exists pre post, s = pre ++ post /\ m post = Some r /\
    forall pre' post', s = pre' ++ post' ->
      (List.length pre' < List.length pre)%nat -> m post' = None.
Proof.
  induction s as [|c s IH]; cbn [search].
  - destruct (m []) eqn:E.
    + split.
      * intros H. exists [], []. repeat split; [congruence|].
        intros ? ? _ L. simpl in L. lia.
      * intros [pre [post [H [Hm _]]]].
        symmetry in H. apply app_eq_nil in H as [_ ->]. congruence.
    + split; [discriminate|]. intros [pre [post [H [Hm _]]]].
      symmetry in H. apply app_eq_nil in H as [_ ->]. congruence.
  - destruct (m (c :: s)) eqn:E.
    + split.
      * intros H. exists [], (c :: s). repeat split; [congruence|].
        intros ? ? _ L. simpl in L. lia.
      * intros [pre [post [H [Hm Hfirst]]]]. destruct pre as [|c' pre].
        -- simpl in H. subst post. congruence.
        -- specialize (Hfirst [] (c :: s) eq_refl). simpl in Hfirst.
           rewrite Hfirst in E by lia. discriminate.
    + rewrite IH. split.
      * intros [pre [post [-> [Hm Hfirst]]]]. exists (c :: pre), post.
        repeat split; [exact Hm|]. intros pre' post' H L.
        destruct pre' as [|c' pre'].
        -- simpl in H. now subst post'.
        -- injection H as _ H. apply (Hfirst pre' post' H). simpl in L. lia.
      * intros [pre [post [H [Hm Hfirst]]]]. destruct pre as [|c' pre].
        -- simpl in H. subst post. congruence.
        -- injection H as _ ->. exists pre, post. repeat split; [exact Hm|].
           intros pre' post' H L. apply (Hfirst (c :: pre') post').
           ++ now rewrite H.
           ++ simpl. lia.
Qed.

(** A pattern that starts with a literal and cannot fail after it matches
    after the first occurrence of the literal. *)
Lemma search_literal_Some {A : Type} (p : str) (f : str -> A) (text : str) (v : A) :
  search (fun s => match literal p s with Some r => Some (f r) | None => None end) text
    = Some v <->
  exists pre rest, FirstOccurrence p text pre rest /\ v = f rest.
Proof.
  rewrite search_Some. split.
  - intros [pre [post [-> [Hm Hfirst]]]].
    destruct (literal p post) as [rest|] eqn:E; [|discriminate].
    injection Hm as <-. exists pre, rest. split; [|reflexivity].
    apply literal_spec in E as E'. destruct E' as [m [-> Hs]]. split.
    + now exists m.
    + intros pre' Hocc. apply occursAt_literal in Hocc as [post' [H Hl]].
      destruct (Nat.le_gt_cases (List.length pre) (List.length pre')) as [L|L];
        [exact L|].
      specialize (Hfirst pre' post' H L).
      destruct (literal p post'); [discriminate | congruence].
  - intros [pre [rest [[[m [-> Hs]] Hfirst] ->]]].
    exists pre, (m ++ rest). repeat split.
    + assert (L : literal p (m ++ rest) = Some rest) by (apply literal_spec; eauto).
      now rewrite L.
    + intros pre' post' H L. destruct (literal p post') eqn:E; [|reflexivity].
      exfalso. assert (Hocc : OccursAt p (pre ++ m ++ rest) pre').
      { apply occursAt_literal. exists post'. split; [exact H | congruence]. }
      apply Hfirst in Hocc. lia.
Qed.

Lemma search_literal_None {A : Type} (p : str) (k : str -> option A) (text : str) :
  ~ Occurs p text ->
  search (fun s => match literal p s with Some r => k r | None => None end) text = None.
Proof.
  intros H. apply search_None. intros pre post ->.
  destruct (literal p post) eqn:E; [|reflexivity].
  exfalso. apply H. exists pre. apply occursAt_literal. exists post.
  split; [reflexivity | congruence].
Qed.

Lemma search_literal_total_None {A : Type} (p : str) (f : str -> A) (text : str) :
  search (fun s => match literal p s with Some r => Some (f r) | None => None end) text
    = None <-> ~ Occurs p text.
Proof.
  split; [|apply search_literal_None with (k := fun r => Some (f r))].
  intros H [pre Hocc]. apply occursAt_literal in Hocc as [post [-> Hl]].
  rewrite search_None in H. specialize (H pre post eq_refl).
  destruct (literal p post); [discriminate | congruence].
Qed.

(** The lazy group before a look-ahead that holds at the end of the text
    always finds its end. *)
Lemma lazyUntil_lookahead (markers : list str) (s : str) :
  exists cap, lazyUntil (lookahead markers) s = Some cap.
Proof.
  induction s as [|c s [cap IH]]; cbn [lazyUntil].
  - unfold lookahead at 1. rewrite orb_true_r. now exists [].
  - destruct (lookahead markers (c :: s)); [now exists []|].
    rewrite IH. now exists (c :: cap).
Qed.

(** A pattern that starts with a literal matches after the first occurrence
    of the literal when the rest of the pattern matches there. *)
Lemma search_literal_first {A : Type} (p : str) (k : str -> option A)
      (text pre rest : str) (v : A) :
  FirstOccurrence p text pre rest -> k rest = Some v ->
  search (fun s => match literal p s with Some r => k r | None => None end) text
    = Some v.
Proof.
  intros [[m [-> Hs]] Hfirst] Hk. apply search_Some.
  exists pre, (m ++ rest). repeat split.
  - assert (L : literal p (m ++ rest) = Some rest) by (apply literal_spec; eauto).
    now rewrite L.
  - intros pre' post' H L. destruct (literal p post') eqn:E; [|reflexivity].
    exfalso. assert (Hocc : OccursAt p (pre ++ m ++ rest) pre').
    { apply occursAt_literal. exists post'. split; [exact H | congruence]. }
    apply Hfirst in Hocc. lia.
Qed.

Lemma occursAt_cons (p : str) (c : char) (t pre : str) :
  OccursAt p (c :: t) (c :: pre) <-> OccursAt p t pre.
Proof.
  unfold OccursAt. split; intros [m [post [H Hs]]]; exists m, post; split; trivial.
  - now injection H.
  - now rewrite H.
Qed.

Lemma findFirst_Some (p text pre rest : str) :
  findFirst p text = Some (pre, rest) -> FirstOccurrence p text pre rest.
Proof.
  revert pre; induction text as [|c t IH]; intros pre; cbn [findFirst].
  - destruct (literal p []) as [r|] eqn:E; [|discriminate].
    intros H; injection H as <- <-. split.
    + apply literal_spec in E as [m [E Hs]]. now exists m.
    + intros; simpl; lia.
  - destruct (literal p (c :: t)) as [r|] eqn:E.
    + intros H; injection H as <- <-. split.
      * apply literal_spec in E as [m [E Hs]]. now exists m.
      * intros; simpl; lia.
    + destruct (findFirst p t) as [[pre' rest']|]; [|discriminate].
      intros H; injection H as <- <-.
      destruct (IH pre' eq_refl) as [[m [-> Hs]] Hfirst]. split.
      * now exists m.
      * intros pre'' Hocc. destruct pre'' as [|c' pre''].
        -- exfalso. apply occursAt_literal in Hocc as [post [H Hl]].
           simpl in H. subst post. congruence.
        -- assert (c' = c).
           { destruct Hocc as [m' [post' [H _]]]. now injection H. }
           subst c'. apply occursAt_cons in Hocc. apply Hfirst in Hocc.
           simpl. lia.
Qed.

Lemma findFirst_None (p text : str) : findFirst p text = None -> ~ Occurs p text.
Proof.
  induction text as [|c t IH]; cbn [findFirst].
  - destruct (literal p []) eqn:E; [discriminate|]. intros _ [pre Hocc].
    apply occursAt_literal in Hocc as [post [H Hl]].
    symmetry in H. apply app_eq_nil in H as [_ ->]. congruence.
  - destruct (literal p (c :: t)) eqn:E; [discriminate|].
    destruct (findFirst p t) as [[pre' rest']|]; [discriminate|].
    intros _ [pre Hocc]. destruct pre as [|c' pre].
    + apply occursAt_literal in Hocc as [post [H Hl]]. simpl in H. subst post.
      congruence.
    + assert (c' = c).
      { destruct Hocc as [m' [post' [H _]]]. now injection H. }
      subst c'. apply occursAt_cons in Hocc. apply IH; [reflexivity|]. now exists pre.
Qed.

Lemma findFirst_occurs (p text pre rest : str) :
  findFirst p text = Some (pre, rest) -> Occurs p text.
Proof.
  intros H. apply findFirst_Some in H as [[m [H Hs]] _]. now exists pre, m, rest.
Qed.

Lemma literal_head_mismatch (a c : char) (p s : str) :
  canonicalize c <> canonicalize a -> literal (a :: p) (c :: s) = None.
Proof.
  intros H. cbn [literal].
  destruct (N.eqb_spec (canonicalize c) (canonicalize a)); [contradiction | reflexivity].
Qed.

Lemma lazyUntil_prefix {A : Type} (k : str -> option A) (s cap : str) :
  lazyUntil k s = Some cap -> exists rest, s = cap ++ rest.
Proof.
  revert cap; induction s as [|c s IH]; intros cap; cbn [lazyUntil].
  - destruct (k []); [|discriminate]. intros H; injection H as <-. now exists [].
  - destruct (k (c :: s)).
    + intros H; injection H as <-. now exists (c :: s).
    + destruct (lazyUntil k s) as [cap'|]; [|discriminate].
      intros H; injection H as <-. destruct (IH cap' eq_refl) as [rest ->].
      now exists rest.
Qed.

(** A span pattern ([KEY:], white space, lazy group, look-ahead) fails only
    when the key occurs nowhere. *)
Lemma search_span_None (p : str) (markers : list str) (text : str) :
  search (fun s => match literal p s with
                   | Some r => lazyUntil (lookahead markers) (spaces r)
                   | None => None
                   end) text = None <-> ~ Occurs p text.
Proof.
  split; [|apply search_literal_None
             with (k := fun r => lazyUntil (lookahead markers) (spaces r))].
  intros H [pre Hocc]. apply occursAt_literal in Hocc as [post [-> Hl]].
  rewrite search_None in H. specialize (H pre post eq_refl).
  destruct (literal p post) as [r|]; [|congruence].
  destruct (lazyUntil_lookahead markers (spaces r)) as [cap Hc]. congruence.
Qed.

(** The capture of a span pattern does not start with white space. *)
Lemma search_span_capture (p : str) (markers : list str) (text cap : str) :
  search (fun s => match literal p s with
                   | Some r => lazyUntil (lookahead markers) (spaces r)
                   | None => None
                   end) text = Some cap ->
  dropWhile isWhiteSpace cap = cap.
Proof.
  intros H. apply search_Some in H as [pre [post [_ [H _]]]].
  destruct (literal p post) as [r|]; [|discriminate].
  apply lazyUntil_prefix in H as [rest H].
  destruct cap as [|c cap]; [reflexivity|].
  apply dropWhile_id. unfold spaces in H.
  apply dropWhile_head with (s := r) (r := cap ++ rest). exact H.
Qed.


Lemma whitespace_not_L (c : char) :
  isWhiteSpace c = true -> canonicalize c <> canonicalize (ch "L").
Proof.
  intros Hw Hc. change (canonicalize (ch "L")) with 76 in Hc.
  unfold canonicalize in Hc.
  destruct ((0x61 <=? c) && (c <=? 0x7A)) eqn:E.
  - apply andb_true_iff in E as [E1 E2]. apply N.leb_le in E1, E2.
    assert (c = 108) by lia. subst c. discriminate Hw.
  - subst c. discriminate Hw.
Qed.

(** Between [LIST_START] and a [LIST_END] that only white space separates
    from it, the lazy group captures that white space. *)
Lemma lazyUntil_whitespace (ws e post : str) :
  forallb isWhiteSpace ws = true -> sameCI e (lit "LIST_END") ->
  lazyUntil (literal (lit "LIST_END")) (ws ++ e ++ post) = Some ws.
Proof.
  intros Hws He. induction ws as [|c ws IH]; cbn [lazyUntil app].
  - assert (L : literal (lit "LIST_END") (e ++ post) = Some post)
      by (apply literal_spec; eauto).
    destruct (e ++ post); cbn [lazyUntil]; now rewrite L.
  - cbn [forallb] in Hws. apply andb_true_iff in Hws as [Hc Hws].
    change (lit "LIST_END") with (ch "L" :: lit "IST_END") at 1.
    rewrite literal_head_mismatch by now apply whitespace_not_L.
    now rewrite (IH Hws).
Qed.

Lemma trim_whitespace (ws : str) : forallb isWhiteSpace ws = true -> trim ws = [].
Proof.
  intros H. unfold trim, trimStart, trimEnd.
  apply dropWhile_nil_iff in H. now rewrite H.
Qed.

End RegexFacts.

(** ** The patterns of the source, run by the matcher *)

Section PatternFacts.

Lemma run_Lit (p s g : str) (k : str -> str -> option MatchState) :
  run (Lit p) s g k = match literal p s with Some r => k r g | None => None end.
Proof.
  revert s; induction p as [|a p IH]; intros s.
  - reflexivity.
  - change (Lit (a :: p)) with (Seq (Chr a) (Lit p)). cbn [run Chr literal].
    destruct s as [|b s]; [reflexivity|].
    destruct (canonicalize b =? canonicalize a); [apply IH | reflexivity].
Qed.

Lemma dropWhile_length (p : char -> bool) (s : str) :
  (List.length (dropWhile p s) <= List.length s)%nat.
Proof.
  induction s as [|c s IH]; cbn [dropWhile]; [lia|].
  destruct (p c); simpl; lia.
Qed.

Lemma firstn_takeWhile (p : char -> bool) (s : str) :
  firstn (List.length s - List.length (dropWhile p s)) s = takeWhile p s.
Proof.
  induction s as [|c s IH]; [reflexivity|]. cbn [dropWhile takeWhile].
  destruct (p c).
  - pose proof (dropWhile_length p s) as L. cbn [List.length].
    replace (S (List.length s) - List.length (dropWhile p s))%nat
      with (S (List.length s - List.length (dropWhile p s))) by lia.
    cbn [firstn]. now rewrite IH.
  - now rewrite Nat.sub_diag.
Qed.

(** A greedy star before something that cannot fail takes all it can. *)
Lemma starGreedy_total (p : char -> bool) (k : str -> option MatchState) (s : str) :
  (forall s', k s' <> None) -> starGreedy p k s = k (dropWhile p s).
Proof.
  intros Hk. induction s as [|c s IH]; cbn [starGreedy dropWhile]; [reflexivity|].
  destruct (p c); [|reflexivity]. rewrite IH.
  destruct (k (dropWhile p s)) eqn:E; [reflexivity|]. now apply Hk in E.
Qed.

(** A lazy star of any code unit stops at the first place where what follows
    matches. *)
Lemma starLazy_any (k : str -> option MatchState) (s : str) :
  starLazy anyChar k s =
  match lazyUntil k s with
  | Some cap => k (skipn (List.length cap) s)
  | None => None
  end.
Proof.
  induction s as [|c s IH]; cbn [starLazy lazyUntil].
  - destruct (k []) eqn:E; [cbn [List.length skipn]; now rewrite E | reflexivity].
  - destruct (k (c :: s)) eqn:E; [cbn [List.length skipn]; now rewrite E|].
    cbn [anyChar]. rewrite IH. now destruct (lazyUntil k s).
Qed.

Lemma lazyUntil_ext {A B : Type} (k1 : str -> option A) (k2 : str -> option B) (s : str) :
  (forall s', k1 s' = None <-> k2 s' = None) -> lazyUntil k1 s = lazyUntil k2 s.
Proof.
  intros H. induction s as [|c s IH]; cbn [lazyUntil].
  - specialize (H []). destruct (k1 []), (k2 []); trivial.
    + destruct H as [_ H]. discriminate (H eq_refl).
    + destruct H as [H _]. discriminate (H eq_refl).
  - specialize (H (c :: s)). destruct (k1 (c :: s)), (k2 (c :: s)); trivial.
    + destruct H as [_ H]. discriminate (H eq_refl).
    + destruct H as [H _]. discriminate (H eq_refl).
    + now rewrite IH.
Qed.

Lemma lazyUntil_stop {A : Type} (k : str -> option A) (s cap : str) :
  lazyUntil k s = Some cap ->
  firstn (List.length s - List.length (skipn (List.length cap) s)) s = cap /\
  k (skipn (List.length cap) s) <> None.
Proof.
  revert cap; induction s as [|c s IH]; intros cap; cbn [lazyUntil].
  - destruct (k []) eqn:E; [|discriminate]. intros H; injection H as <-.
    split; [reflexivity | simpl; congruence].
  - destruct (k (c :: s)) eqn:E.
    + intros H; injection H as <-. cbn [List.length skipn].
      rewrite Nat.sub_diag. split; [reflexivity | congruence].
    + destruct (lazyUntil k s) as [cap'|]; [|discriminate].
      intros H; injection H as <-. destruct (IH cap' eq_refl) as [H1 H2].
      cbn [List.length skipn]. split; [|exact H2].
      pose proof (length_skipn (List.length cap') s) as L.
      replace (S (List.length s) - List.length (skipn (List.length cap') s))%nat
        with (S (List.length s - List.length (skipn (List.length cap') s))) by lia.
      cbn [firstn]. now rewrite H1.
Qed.

Lemma search_ext {A : Type} (m1 m2 : str -> option A) (s : str) :
  (forall s', m1 s' = m2 s') -> search m1 s = search m2 s.
Proof.
  intros H. induction s as [|c s IH]; cbn [search]; rewrite H;
    [reflexivity | now rewrite IH].
Qed.

(** The lazy group before a test [t] of what follows, when the rest of the
    pattern [k] matches where [t] does and leaves the group as it is. *)
Lemma run_lazy_group {A : Type} (t : str -> option A)
      (k : str -> str -> option MatchState) (s g : str) :
  (forall s' g', match k s' g' with
                 | Some (_, g'') => g'' = g' /\ t s' <> None
                 | None => t s' = None
                 end) ->
  option_map snd (run (Group (Star false anyChar)) s g k) = lazyUntil t s.
Proof.
  intros Hk. cbn [run]. rewrite starLazy_any.
  rewrite (lazyUntil_ext _ t).
  - destruct (lazyUntil t s) as [cap|] eqn:E; [|reflexivity].
    apply lazyUntil_stop in E as [E1 E2].
    specialize (Hk (skipn (List.length cap) s)
                   (firstn (List.length s - List.length (skipn (List.length cap) s)) s)).
    destruct (k _ _) as [[rest g'']|].
    + destruct Hk as [-> _]. cbn. now rewrite E1.
    + contradiction.
  - intros s'. specialize (Hk s' (firstn (List.length s - List.length s') s)).
    destruct (k _ _) as [[rest g'']|].
    + destruct Hk as [_ Hk]. split; [discriminate | intros; contradiction].
    + tauto.
Qed.

(** The look-ahead of the span patterns. *)
Lemma run_markers (markers : list str) (s g : str) :
  match run (Alts (map Lit markers) End) s g (fun s' g' => Some (s', g')) with
  | Some (_, g') => g' = g /\ lookahead markers s <> None
  | None => lookahead markers s = None
  end.
Proof.
  induction markers as [|m markers IH].
  - cbn [map Alts fold_right run]. unfold lookahead. cbn [existsb orb].
    destruct s; [split; [reflexivity | discriminate] | reflexivity].
  - change (Alts (map Lit (m :: markers)) End)
      with (Alt (Lit m) (Alts (map Lit markers) End)).
    cbn [run]. rewrite run_Lit. unfold lookahead in *. cbn [existsb].
    destruct (literal m s) as [r|]; [split; [reflexivity | discriminate]|].
    exact IH.
Qed.

Lemma run_Ahead_markers (markers : list str) (s g : str) :
  match run (Ahead (Alts (map Lit markers) End)) s g (fun s' g' => Some (s', g')) with
  | Some (_, g') => g' = g /\ lookahead markers s <> None
  | None => lookahead markers s = None
  end.
Proof.
  cbn [run]. pose proof (run_markers markers s g) as H.
  destruct (run (Alts (map Lit markers) End) s g _) as [[rest g']|]; exact H.
Qed.

Lemma run_Seq (a b : regex) (s g : str) (k : str -> str -> option MatchState) :
  run (Seq a b) s g k = run a s g (fun s' g' => run b s' g' k).
Proof. reflexivity. Qed.

Lemma run_greedy (p : char -> bool) (s g : str) (k : str -> str -> option MatchState) :
  run (Star true p) s g k = starGreedy p (fun s' => k s' g) s.
Proof. reflexivity. Qed.

(** A span pattern at one start position. *)
Lemma matchAt_span (key : str) (markers : list str) (s : str) :
  option_map snd
    (matchAt (Seq (Lit key)
                  (Seq (Star true isWhiteSpace)
                       (Seq (Group (Star false anyChar))
                            (Ahead (Alts (map Lit markers) End))))) s)
  = match literal key s with
    | Some r => lazyUntil (lookahead markers) (spaces r)
    | None => None
    end.
Proof.
  unfold matchAt. rewrite run_Seq, run_Lit.
  destruct (literal key s) as [r|]; [|reflexivity].
  rewrite run_Seq, run_greedy.
  assert (Hgroup : forall s2,
             option_map snd
               (run (Seq (Group (Star false anyChar))
                         (Ahead (Alts (map Lit markers) End))) s2 []
                    (fun s' g' => Some (s', g')))
             = lazyUntil (lookahead markers) s2).
  { intros s2. rewrite run_Seq. apply run_lazy_group.
    intros s' g'. apply run_Ahead_markers. }
  rewrite starGreedy_total.
  - apply Hgroup.
  - intros s2 E. specialize (Hgroup s2). rewrite E in Hgroup.
    destruct (lazyUntil_lookahead markers s2) as [cap Hc]. rewrite Hc in Hgroup.
    discriminate.
Qed.

Lemma matchGroup1_snd (r : regex) (text : str) :
  matchGroup1 r text = search (fun s => option_map snd (matchAt r s)) text.
Proof.
  unfold matchGroup1. apply search_ext. intros s.
  now destruct (matchAt r s) as [[rest g]|].
Qed.

Lemma summaryMatch_eq (text : str) :
  summaryMatch text =
  afterLiteral (lit "SUMMARY:")
    (fun r => lazyUntil
                (lookahead [lit "HEALTH_SCORE"; lit "FSSAI_NOTICE"; lit "LIST_START"])
                (spaces r))
    text.
Proof.
  unfold summaryMatch, afterLiteral. rewrite matchGroup1_snd.
  apply search_ext. intros s.
  apply (matchAt_span (lit "SUMMARY:")
           [lit "HEALTH_SCORE"; lit "FSSAI_NOTICE"; lit "LIST_START"]).
Qed.

Lemma fssaiMatch_eq (text : str) :
  fssaiMatch text =
  afterLiteral (lit "FSSAI_NOTICE:")
    (fun r => lazyUntil (lookahead [lit "LIST_START"]) (spaces r)) text.
Proof.
  unfold fssaiMatch, afterLiteral. rewrite matchGroup1_snd.
  apply search_ext. intros s.
  apply (matchAt_span (lit "FSSAI_NOTICE:") [lit "LIST_START"]).
Qed.

Lemma listMatch_eq (text : str) :
  listMatch text =
  afterLiteral (lit "LIST_START") (fun r => lazyUntil (literal (lit "LIST_END")) r) text.
Proof.
  unfold listMatch, afterLiteral. rewrite matchGroup1_snd.
  apply search_ext. intros s. unfold matchAt, listPattern.
  rewrite run_Seq, run_Lit.
  destruct (literal (lit "LIST_START") s) as [r|]; [|reflexivity].
  rewrite run_Seq. apply run_lazy_group. intros s' g'. rewrite run_Lit.
  destruct (literal (lit "LIST_END") s'); [split; [reflexivity | discriminate]|].
  reflexivity.
Qed.

Lemma extractValue_eq (text key : str) :
  extractValue text key =
  option_map trim
    (afterLiteral (key ++ lit ":") (fun r => Some (restOfLine (spaces r))) text).
Proof.
  unfold extractValue, afterLiteral. rewrite matchGroup1_snd.
  rewrite (search_ext _ (fun s => match literal (key ++ lit ":") s with
                                  | Some r => Some (restOfLine (spaces r))
                                  | None => None
                                  end)).
  - now destruct (search _ text).
  - intros s. unfold matchAt, valuePattern. rewrite run_Seq, run_Lit.
    destruct (literal (key ++ lit ":") s) as [r|]; [|reflexivity].
    rewrite run_Seq, run_greedy. cbn [run].
    rewrite starGreedy_total.
    + rewrite starGreedy_total by discriminate. cbn [option_map snd].
      unfold restOfLine, spaces. now rewrite firstn_takeWhile.
    + intros s2. now rewrite starGreedy_total by discriminate.
Qed.

(** The marker pattern takes one code unit of its class and the white space
    after it. *)
Lemma stripMarker_eq (row : str) :
  stripMarker row =
  match row with
  | c :: rest => if isListMarker c then spaces rest else row
  | [] => []
  end.
Proof.
  unfold stripMarker, replaceAtStart, matchAt, markerPattern. cbn [run].
  destruct row as [|c rest]; [reflexivity|].
  destruct (isListMarker c); [|reflexivity].
  now rewrite starGreedy_total by discriminate.
Qed.

End PatternFacts.

(** ** Rows and the classifier *)

Section RowFacts.

Lemma isListMarker_not_PIPE (c : char) : isListMarker c = true -> c <> PIPE.
Proof. intros H ->. discriminate H. Qed.

Lemma count_occ_stripMarker (row : str) :
  count_occ N.eq_dec (stripMarker row) PIPE = count_occ N.eq_dec row PIPE.
Proof.
  rewrite stripMarker_eq. destruct row as [|c rest]; [reflexivity|].
  destruct (isListMarker c) eqn:E; [|reflexivity].
  unfold spaces. rewrite count_occ_dropWhile by reflexivity.
  apply isListMarker_not_PIPE in E. cbn [count_occ].
  destruct (N.eq_dec c PIPE); [contradiction | reflexivity].
Qed.

(** Cleaning a row neither adds nor removes a pipe, so the row has as many
    fields as the raw line has pieces between pipes. *)
Lemma rowParts_length (row : str) :
  List.length (rowParts row) = List.length (split PIPE row).
Proof.
  unfold rowParts. rewrite length_map, !split_length.
  now rewrite count_occ_trim, count_occ_stripMarker by reflexivity.
Qed.

Lemma parseRow_None (row : str) :
  parseRow row = None <-> (List.length (split PIPE row) < 3)%nat.
Proof.
  unfold parseRow. rewrite <- rowParts_length.
  destruct (Nat.leb_spec 3 (List.length (rowParts row))); split;
    try discriminate; try reflexivity; lia.
Qed.

Lemma parseRow_Some (row : str) :
  (exists i, parseRow row = Some i) <-> (3 <= List.length (split PIPE row))%nat.
Proof.
  pose proof (parseRow_None row) as H. destruct (parseRow row) as [i|].
  - split; [|eauto]. intros _.
    destruct (Nat.le_gt_cases 3 (List.length (split PIPE row))) as [L|L]; [exact L|].
    apply H in L. discriminate.
  - split; [intros [i Hi]; discriminate|]. intros L.
    assert (N : (List.length (split PIPE row) < 3)%nat) by now apply H. lia.
Qed.

(** The loop pushes the ingredient of every accepted row, in order, and
    goes on after a rejected one. *)
Lemma fold_rowStep (rows : list str) (acc : list Ingredient) :
  fold_left rowStep rows acc = acc ++ acceptedRows rows.
Proof.
  revert acc; induction rows as [|row rows IH]; intros acc; cbn [fold_left].
  - unfold acceptedRows. simpl. now rewrite app_nil_r.
  - rewrite IH. unfold rowStep, acceptedRows. cbn [flat_map].
    destruct (parseRow row); [now rewrite <- app_assoc | reflexivity].
Qed.

Lemma ingredientsOf_acceptedRows (text : str) :
  ingredientsOf text = acceptedRows (tableRows text).
Proof. unfold ingredientsOf. now rewrite fold_rowStep. Qed.

Lemma acceptedRows_nil (rows : list str) :
  acceptedRows rows = [] <->
  forall row, In row rows -> (List.length (split PIPE row) < 3)%nat.
Proof.
  unfold acceptedRows. induction rows as [|row rows IH]; cbn [flat_map].
  - split; [intros _ row [] | reflexivity].
  - split.
    + intros H. apply app_eq_nil in H as [H1 H2]. intros r [<-|Hr].
      * apply parseRow_None. destruct (parseRow row); [discriminate | reflexivity].
      * now apply IH.
    + intros H. assert (E : parseRow row = None).
      { apply parseRow_None, H. now left. }
      rewrite E. apply IH. intros r Hr. apply H. now right.
Qed.

Lemma existsb_includes (keywords : list str) (s : str) :
  existsb (includes (toLowerCase s)) keywords = true <-> HasKeyword keywords s.
Proof.
  rewrite existsb_exists. unfold HasKeyword, Substring.
  split; intros [kw [H1 H2]]; exists kw; (split; [exact H1|]);
    now apply includes_spec.
Qed.

Lemma classify_existsb (s : str) :
  classify s =
  if existsb (includes (toLowerCase s)) harmfulKeywords then harmful
  else if existsb (includes (toLowerCase s)) healthyKeywords then healthy
  else neutral.
Proof.
  unfold classify, harmfulKeywords, healthyKeywords. cbn [existsb].
  destruct (includes (toLowerCase s) (lit "harmful")),
           (includes (toLowerCase s) (lit "bad")),
           (includes (toLowerCase s) (lit "danger")),
           (includes (toLowerCase s) (lit "concern")),
           (includes (toLowerCase s) (lit "healthy")),
           (includes (toLowerCase s) (lit "good")),
           (includes (toLowerCase s) (lit "safe")); reflexivity.
Qed.

Lemma hasKeyword_app (keywords : list str) (kw low pre post : str) :
  In kw keywords -> toLowerCase low = kw -> HasKeyword keywords (pre ++ low ++ post).
Proof.
  intros Hin Hl. exists kw. split; [exact Hin|].
  exists (toLowerCase pre), (toLowerCase post).
  now rewrite !toLowerCase_app, Hl.
Qed.

End RowFacts.

(** ** The block as a whole *)

Section ParseFacts.

Lemma parse_Thrown (q text : str) (chunks : list Chunk) (message : str) :
  parse q text chunks = Thrown message ->
  message = LIST_ERROR /\ ingredientsOf text = [].
Proof.
  unfold parse. destruct (ingredientsOf text) as [|i rest]; cbn [List.length Nat.eqb].
  - intros H; injection H as <-. now split.
  - discriminate.
Qed.

Lemma parse_Returned (q text : str) (chunks : list Chunk) (r : AnalysisResult) :
  parse q text chunks = Returned r ->
  ingredientsOf text <> [] /\
  r = {| productName := productNameOf q text;
         summary := summaryOf text;
         ingredients := ingredientsOf text;
         sources := sourcesOf chunks;
         fssaiNotice := Some (fssaiNoticeOf text);
         healthScore := Some (healthScoreOf text) |}.
Proof.
  unfold parse. destruct (ingredientsOf text) as [|i rest]; cbn [List.length Nat.eqb].
  - discriminate.
  - intros H; injection H as <-. split; [discriminate | reflexivity].
Qed.

Lemma parse_nil (q text : str) (chunks : list Chunk) :
  ingredientsOf text = [] -> parse q text chunks = Thrown LIST_ERROR.
Proof. intros H. unfold parse. now rewrite H. Qed.

Lemma parse_total (q text : str) (chunks : list Chunk) :
  parse q text chunks = Thrown LIST_ERROR \/ exists r, parse q text chunks = Returned r.
Proof.
  destruct (parse q text chunks) as [r|message] eqn:E; [right; eauto|].
  apply parse_Thrown in E as [-> _]. now left.
Qed.

Lemma fssaiMatch_None (text : str) :
  fssaiMatch text = None <-> ~ Occurs (lit "FSSAI_NOTICE:") text.
Proof. rewrite fssaiMatch_eq. apply search_span_None. Qed.

Lemma extractValue_None (text key : str) :
  extractValue text key = None <-> ~ Occurs (key ++ lit ":") text.
Proof.
  rewrite extractValue_eq. unfold afterLiteral.
  rewrite <- (search_literal_total_None (key ++ lit ":")
                (fun r => restOfLine (spaces r)) text).
  destruct (search _ text); cbn [option_map]; split; congruence.
Qed.

Lemma includes_none_iff (group1 : str) :
  includes (toLowerCase group1) (lit "none") = true <->
  Substring (lit "none") (toLowerCase group1).
Proof. apply includes_spec. Qed.

End ParseFacts.

(** ** The classifier *)

(** C3.  The classifier lower-cases the status text and answers [harmful]
    when the result contains one of [harmful], [bad], [danger], [concern];
    otherwise [healthy] when it contains one of [healthy], [good], [safe];
    otherwise [neutral].  So a harmful keyword wins over a healthy one: any
    text around [harmful] or [Danger] is classified harmful, also one that has
    [safe] in it, and a text with none of the seven keywords is neutral. *)
Theorem classify_keyword_precedence :
  (forall s,
      (classify s = harmful <-> HasKeyword harmfulKeywords s) /\
      (classify s = healthy <->
         ~ HasKeyword harmfulKeywords s /\ HasKeyword healthyKeywords s) /\
      (classify s = neutral <->
         ~ HasKeyword harmfulKeywords s /\ ~ HasKeyword healthyKeywords s)) /\
  (forall pre post, classify (pre ++ lit "harmful" ++ post) = harmful) /\
  (forall pre post, classify (pre ++ lit "Danger" ++ post) = harmful) /\
  (forall s, Substring (lit "harmful") s -> Substring (lit "safe") s ->
             classify s = harmful).
Proof.
  assert (Hharm : forall s, HasKeyword harmfulKeywords s -> classify s = harmful).
  { intros s H. rewrite classify_existsb.
    apply existsb_includes in H. now rewrite H. }
  split; [|split; [|split]].
  - intros s. rewrite classify_existsb.
    pose proof (existsb_includes harmfulKeywords s) as H1.
    pose proof (existsb_includes healthyKeywords s) as H2.
    destruct (existsb (includes (toLowerCase s)) harmfulKeywords);
      destruct (existsb (includes (toLowerCase s)) healthyKeywords);
      first [ assert (A1 : HasKeyword harmfulKeywords s) by (now apply H1)
            | assert (A1 : ~ HasKeyword harmfulKeywords s)
                by (intros K; apply H1 in K; discriminate) ];
      first [ assert (A2 : HasKeyword healthyKeywords s) by (now apply H2)
            | assert (A2 : ~ HasKeyword healthyKeywords s)
                by (intros K; apply H2 in K; discriminate) ];
      repeat split; intros; try discriminate; tauto.
  - intros pre post. apply Hharm.
    apply hasKeyword_app with (kw := lit "harmful"); [now left | reflexivity].
  - intros pre post. apply Hharm.
    apply hasKeyword_app with (kw := lit "danger"); [simpl; tauto | reflexivity].
  - intros s [pre [post ->]] _. apply Hharm.
    apply hasKeyword_app with (kw := lit "harmful"); [now left | reflexivity].
Qed.

Lemma classify_keyword_precedence_witness :
  classify (lit "Potentially harmful, once considered safe") = harmful.
Proof.
  apply (proj2 (proj2 (proj2 classify_keyword_precedence))).
  - exists (lit "Potentially "), (lit ", once considered safe"). reflexivity.
  - exists (lit "Potentially harmful, once considered "), []. reflexivity.
Defined.

(** ** Ingredient rows *)

(** C5, as the code has it.  A line is accepted exactly when splitting it on
    the pipe gives at least three fields; a line with fewer is skipped and
    the loop goes on.  An accepted row gives field 0 as the name, field 1 as
    the quantity with [N/A] for an empty one, the class of field 2 as the
    status, and field 3 as the description, with the placeholder when there
    is no fourth field or it is empty.  A row of exactly three fields has a
    quantity and the placeholder description. *)
Theorem parseRow_fields :
  (forall row,
      (parseRow row = None <-> (List.length (split PIPE row) < 3)%nat) /\
      ((3 <= List.length (split PIPE row))%nat ->
       exists i, parseRow row = Some i /\
         name i = nth 0 (rowParts row) [] /\
         quantity i =
           (match nth 1 (rowParts row) [] with
            | [] => lit "N/A"
            | _ :: _ => nth 1 (rowParts row) []
            end) /\
         status i = classify (nth 2 (rowParts row) []) /\
         description i =
           (match nth_error (rowParts row) 3 with
            | Some (c :: d) => c :: d
            | _ => lit "Major component found in product label."
            end)) /\
      (List.length (split PIPE row) = 3%nat ->
       exists i, parseRow row = Some i /\ quantity i <> [] /\
                 description i = lit "Major component found in product label.")) /\
  (forall rows acc, fold_left rowStep rows acc = acc ++ acceptedRows rows) /\
  (forall text, ingredientsOf text = acceptedRows (tableRows text)).
Proof.
  split; [|split; [apply fold_rowStep | apply ingredientsOf_acceptedRows]].
  intros row. set (parts := rowParts row).
  split; [apply parseRow_None|]. split.
  - intros L. unfold parseRow. fold parts.
    assert (E : (3 <=? List.length parts)%nat = true).
    { apply Nat.leb_le. unfold parts. now rewrite rowParts_length. }
    rewrite E. eexists. split; [reflexivity|]. cbn [name quantity status description].
    split; [reflexivity|]. split; [reflexivity|]. split; [reflexivity|].
    destruct (nth_error parts 3) as [[|c d]|]; reflexivity.
  - intros L. unfold parseRow. fold parts.
    assert (Lp : List.length parts = 3%nat).
    { unfold parts. now rewrite rowParts_length. }
    rewrite Lp. cbn [Nat.leb]. eexists. split; [reflexivity|].
    cbn [quantity description]. split.
    + unfold orElse. destruct (nth 1 parts []); discriminate.
    + destruct parts as [|a [|b [|c [|d parts']]]]; try discriminate. reflexivity.
Qed.

Lemma parseRow_fields_witness :
  exists i, parseRow (lit "- Salt |  | neutral") = Some i /\
            quantity i <> [] /\
            description i = lit "Major component found in product label.".
Proof.
  apply (proj2 (proj2 (proj1 parseRow_fields (lit "- Salt |  | neutral")))).
  reflexivity.
Defined.

(** The mapping worded by the specification is not the one of the code: a
    row whose fourth field is empty gets the placeholder, not the empty
    description. *)
Lemma parseRow_empty_fourth_field :
  rowParts (lit "Sugar | 10g | harmful |")
    = [lit "Sugar"; lit "10g"; lit "harmful"; lit ""] /\
  option_map description (parseRow (lit "Sugar | 10g | harmful |"))
    = Some (lit "Major component found in product label.") /\
  option_map description (parseRow_asSpecified (lit "Sugar | 10g | harmful |"))
    = Some (lit "") /\
  parseRow (lit "Sugar | 10g | harmful |")
    <> parseRow_asSpecified (lit "Sugar | 10g | harmful |").
Proof.
  repeat split; try reflexivity. vm_compute. discriminate.
Qed.

(** C9.  The marker pattern takes one code unit of its class and the white
    space after it, so of an ordinal only the first digit goes: the rows
    [1. Sugar | ...] and [12. Sugar | ...] give the names [. Sugar] and
    [2. Sugar], while one dash, star or bullet is removed whole. *)
Theorem stripMarker_ordinal_residue :
  (forall rest, stripMarker (ch "1" :: ch "." :: rest) = ch "." :: rest) /\
  stripMarker (lit "1. Sugar | 10g | harmful | reason")
    = lit ". Sugar | 10g | harmful | reason" /\
  option_map name (parseRow (lit "1. Sugar | 10g | harmful | reason"))
    = Some (lit ". Sugar") /\
  option_map name (parseRow (lit "12. Sugar | 10g | harmful | reason"))
    = Some (lit "2. Sugar") /\
  map name (ingredientsOf ordinalTableReport) = [lit ". Sugar"; lit "2. Sugar"] /\
  option_map name (parseRow (lit "- Sugar | 10g | harmful | reason"))
    = Some (lit "Sugar") /\
  option_map name (parseRow (0x2022 :: lit " Sugar | 10g | harmful | reason"))
    = Some (lit "Sugar").
Proof.
  split; [intros rest; now rewrite stripMarker_eq|]. repeat split; reflexivity.
Qed.

(** ** The example report *)

(** C2, as the code has it.  The example report of the specification is
    parsed, whatever the query and the citations, to the product name
    [Test Snack], the score 35, the summary of the report and two
    ingredients, harmful then healthy; its [fssaiNotice] field is there and
    holds the empty string. *)
Theorem example_report_result (q : str) (chunks : list Chunk) :
  exists r, parse q exampleReport chunks = Returned r /\
    productName r = lit "Test Snack" /\
    summary r = lit "High in sugar." /\
    healthScore r = Some 35%Z /\
    fssaiNotice r = Some (lit "") /\
    map status (ingredients r) = [harmful; healthy] /\
    map name (ingredients r) = [lit "Sugar"; lit "Rice Flour"] /\
    sources r = sourcesOf chunks.
Proof.
  eexists. split; [vm_compute; reflexivity|]. repeat split.
Qed.

(** The field is not absent on the example report. *)
Lemma example_report_notice_not_absent :
  ~ exists r, parse (lit "Test Snack") exampleReport [] = Returned r /\
      productName r = lit "Test Snack" /\
      healthScore r = Some 35%Z /\
      fssaiNotice r = None /\
      map status (ingredients r) = [harmful; healthy].
Proof.
  intros [r [H [_ [_ [Habs _]]]]].
  vm_compute in H. injection H as <-. discriminate Habs.
Qed.

(** ** Rejection *)

(** C1.  The block throws, and then always the error of the ingredient
    list, exactly when no row is accepted, that is when no line of the span
    between [LIST_START] and [LIST_END] splits into three fields or more.  A
    text without a [LIST_START] is rejected, and so is one whose table holds
    nothing but white space, [LIST_START] followed by a line feed and
    [LIST_END] for one.  On rejection no record is produced: after
    [analyzeFood] the result of the state is empty and its error is that
    message, whatever else the text held. *)
Theorem parse_rejects_iff_no_row :
  (forall q text chunks,
      parse q text chunks = Thrown LIST_ERROR <->
      forall row, In row (tableRows text) ->
                  (List.length (split PIPE row) < 3)%nat) /\
  (forall q text chunks,
      parse q text chunks = Thrown LIST_ERROR \/
      exists r, parse q text chunks = Returned r /\ ingredients r <> []) /\
  (forall q text chunks,
      ~ Occurs (lit "LIST_START") text -> parse q text chunks = Thrown LIST_ERROR) /\
  (forall q text chunks pre ws e post,
      FirstOccurrence (lit "LIST_START") text pre (ws ++ e ++ post) ->
      forallb isWhiteSpace ws = true -> sameCI e (lit "LIST_END") ->
      parse q text chunks = Thrown LIST_ERROR) /\
  (forall q chunks, parse q (lit "LIST_START" ++ NL :: lit "LIST_END") chunks
                    = Thrown LIST_ERROR) /\
  (forall st response t,
      trim (query st) <> [] -> text response = Some t -> t <> [] ->
      (forall row, In row (tableRows t) -> (List.length (split PIPE row) < 3)%nat) ->
      analyzeFood st (Replied response)
        = {| query := query st; loading := false; result := None;
             error := Some LIST_ERROR |}).
Proof.
  assert (Hiff : forall q text chunks,
             parse q text chunks = Thrown LIST_ERROR <->
             forall row, In row (tableRows text) ->
                         (List.length (split PIPE row) < 3)%nat).
  { intros q text chunks. rewrite <- acceptedRows_nil, <- ingredientsOf_acceptedRows.
    split; [apply parse_Thrown | apply parse_nil]. }
  split; [exact Hiff|]. split; [|split; [|split; [|split]]].
  - intros q text chunks. destruct (parse_total q text chunks) as [H|[r H]];
      [now left | right].
    exists r. split; [exact H|]. apply parse_Returned in H as [H ->]. exact H.
  - intros q text chunks H. apply Hiff. unfold tableRows.
    rewrite listMatch_eq. unfold afterLiteral.
    rewrite (search_literal_None (lit "LIST_START")
               (fun r => lazyUntil (literal (lit "LIST_END")) r) text H).
    intros row [].
  - intros q text chunks pre ws e post Hfirst Hws He. apply Hiff.
    unfold tableRows. rewrite listMatch_eq. unfold afterLiteral.
    rewrite (search_literal_first (lit "LIST_START")
               (fun r => lazyUntil (literal (lit "LIST_END")) r)
               text pre (ws ++ e ++ post) ws Hfirst (lazyUntil_whitespace ws e post Hws He)).
    rewrite (trim_whitespace ws Hws). intros row [<-|[]]. cbn. lia.
  - intros q chunks. vm_compute. reflexivity.
  - intros st response t Hq Ht Hne Hrows. unfold analyzeFood.
    destruct (trim (query st)) as [|c rest]; [contradiction|].
    rewrite Ht. destruct t as [|c' t']; [contradiction|]. cbn [orElseOpt].
    rewrite (proj2 (Hiff (query st) (c' :: t')
                      (match groundingChunks response with Some cs => cs | None => [] end))
               Hrows).
    reflexivity.
Qed.

Lemma parse_rejects_iff_no_row_witness :
  parse (lit "Test Snack") emptyTableReport [] = Thrown LIST_ERROR /\
  parse (lit "Test Snack") noTableReport [] = Thrown LIST_ERROR.
Proof.
  split.
  - apply (proj1 (proj2 (proj2 (proj2 parse_rejects_iff_no_row)))
             (lit "Test Snack") emptyTableReport []
             (joinLines [ "PRODUCT: Test Snack"; "HEALTH_SCORE: 35" ]%string ++ [NL])
             [NL] (lit "LIST_END") []).
    + apply findFirst_Some. reflexivity.
    + reflexivity.
    + reflexivity.
  - apply (proj1 (proj2 (proj2 parse_rejects_iff_no_row))).
    apply findFirst_None. reflexivity.
Defined.

(** ** The health score *)



(** What holds of every result: the ingredients are not empty, and the
    score is 50 or the integer that [parseInt] reads from the value extracted
    for [HEALTH_SCORE]. *)
Lemma parse_result_shape (q text : str) (chunks : list Chunk) (r : AnalysisResult) :
  parse q text chunks = Returned r ->
  ingredients r <> [] /\
  exists n, healthScore r = Some n /\
    (n = 50%Z \/
     exists v, extractValue text (lit "HEALTH_SCORE") = Some v /\ parseInt v = Some n).
Proof.
  intros H. apply parse_Returned in H as [Hne ->]. cbn [ingredients healthScore].
  split; [exact Hne|]. exists (healthScoreOf text). split; [reflexivity|].
  unfold healthScoreOf.
  destruct (extractValue text (lit "HEALTH_SCORE")) as [[|c v]|]; cbn [orElseOpt];
    try (left; reflexivity).
  destruct (parseInt (c :: v)) as [n|] eqn:E; [|left; reflexivity].
  right. exists (c :: v). now split.
Qed.

(** C4.  The interface documents [healthScore] as a number from 0 to 100 and
    the specification makes that an invariant of every result, but the block
    stores what [parseInt] read without a check: the reports with
    [HEALTH_SCORE: 250] and [HEALTH_SCORE: -5] are parsed with success to the
    scores 250 and -5, outside the range.  The ingredients of a result are
    never empty. *)
Theorem healthScore_out_of_range :
  (exists r, parse (lit "Test Snack") score250Report [] = Returned r /\
             healthScore r = Some 250%Z /\
             ~ resultInvariant_asSpecified r) /\
  (exists r, parse (lit "Test Snack") scoreNegativeReport [] = Returned r /\
             healthScore r = Some (-5)%Z /\
             ~ resultInvariant_asSpecified r) /\
  (forall q text chunks r, parse q text chunks = Returned r -> ingredients r <> []).
Proof.
  split; [|split].
  - eexists. split; [reflexivity|]. split; [reflexivity|].
    intros [_ [n [Hn Hr]]]. cbn in Hn. injection Hn as <-. lia.
  - eexists. split; [reflexivity|]. split; [reflexivity|].
    intros [_ [n [Hn Hr]]]. cbn in Hn. injection Hn as <-. lia.
  - intros q text chunks r H. apply parse_Returned in H as [H ->]. exact H.
Qed.

(** ** The notice *)

(** C10.  On a successful parse the [fssaiNotice] field is always there, and
    it holds the empty string when the [FSSAI_NOTICE] span is absent or what
    it captures has [none] in it in any case. *)
Theorem fssaiNotice_empty_not_undefined
        (q text : str) (chunks : list Chunk) (r : AnalysisResult) :
  parse q text chunks = Returned r ->
  (exists notice, fssaiNotice r = Some notice) /\
  (NoticeAbsentOrNone text -> fssaiNotice r = Some (lit "")).
Proof.
  intros H. apply parse_Returned in H as [_ ->]. cbn [fssaiNotice].
  split; [eauto|]. intros Hcase. f_equal. unfold fssaiNoticeOf.
  destruct Hcase as [Hn | [group1 [Hm Hs]]].
  - apply fssaiMatch_None in Hn. now rewrite Hn.
  - rewrite Hm. apply includes_none_iff in Hs. now rewrite Hs.
Qed.

Lemma fssaiNotice_empty_not_undefined_witness :
  exists r, parse (lit "Test Snack") exampleReport [] = Returned r /\
            fssaiNotice r = Some (lit "").
Proof.
  eexists. split; [vm_compute; reflexivity|].
  apply (fssaiNotice_empty_not_undefined (lit "Test Snack") exampleReport []).
  - vm_compute. reflexivity.
  - right. exists (lit "None" ++ [NL]). split; [reflexivity|].
    exists [], [NL]. reflexivity.
Defined.

(** C7, as the code has it.  On a successful parse the notice is the empty
    string exactly when the [FSSAI_NOTICE] span is absent, or what it captures
    has [none] in it in any case, or it captures nothing; otherwise the notice
    is the captured text, trimmed.  So [FSSAI_NOTICE: None] and
    [FSSAI_NOTICE: none detected] give the empty notice and
    [FSSAI_NOTICE: Contains banned dye X] gives [Contains banned dye X]. *)
Theorem fssaiNotice_law :
  (forall q text chunks r,
      parse q text chunks = Returned r ->
      exists notice, fssaiNotice r = Some notice /\
        (notice = [] <-> NoticeAbsentOrNone text \/ fssaiMatch text = Some []) /\
        (forall group1, fssaiMatch text = Some group1 ->
                        ~ Substring (lit "none") (toLowerCase group1) ->
                        notice = trim group1)) /\
  (forall q chunks, exists r,
      parse q noticeNoneReport chunks = Returned r /\ fssaiNotice r = Some (lit "")) /\
  (forall q chunks, exists r,
      parse q noticeNoneDetectedReport chunks = Returned r /\
      fssaiNotice r = Some (lit "")) /\
  (forall q chunks, exists r,
      parse q noticeDyeReport chunks = Returned r /\
      fssaiNotice r = Some (lit "Contains banned dye X")).
Proof.
  split; [|repeat split; intros q chunks; eexists; (split; [vm_compute|]); reflexivity].
  intros q text chunks r H. apply parse_Returned in H as [_ ->]. cbn [fssaiNotice].
  exists (fssaiNoticeOf text). split; [reflexivity|]. unfold fssaiNoticeOf. split.
  - destruct (fssaiMatch text) as [group1|] eqn:Hm.
    + pose proof (includes_none_iff group1) as Hi.
      destruct (includes (toLowerCase group1) (lit "none")); cbn [negb].
      * split; [|reflexivity]. intros _. left. right. exists group1.
        split; [exact Hm | now apply Hi].
      * split.
        -- intros Ht. right. f_equal.
           apply trim_nil_of_head; [|exact Ht].
           rewrite fssaiMatch_eq in Hm. now apply search_span_capture in Hm.
        -- intros [[Hn | [g [Hg Hs]]] | Hg].
           ++ apply fssaiMatch_None in Hn. congruence.
           ++ rewrite Hm in Hg. injection Hg as <-. apply Hi in Hs. discriminate.
           ++ injection Hg as ->. reflexivity.
    + split; [|reflexivity]. intros _. left. left. now apply fssaiMatch_None.
  - intros group1 Hm Hs. rewrite Hm.
    destruct (includes (toLowerCase group1) (lit "none")) eqn:E; [|reflexivity].
    exfalso. apply Hs. now apply includes_none_iff.
Qed.

Lemma fssaiNotice_law_witness :
  exists r, parse (lit "Test Snack") noticeDyeReport [] = Returned r /\
    exists notice, fssaiNotice r = Some notice /\
      (notice = [] <->
         NoticeAbsentOrNone noticeDyeReport \/ fssaiMatch noticeDyeReport = Some []) /\
      (forall group1, fssaiMatch noticeDyeReport = Some group1 ->
                      ~ Substring (lit "none") (toLowerCase group1) ->
                      notice = trim group1).
Proof.
  eexists. split; [reflexivity|].
  apply (proj1 fssaiNotice_law (lit "Test Snack") noticeDyeReport []). reflexivity.
Defined.

(** A span that is there and captures nothing gives no notice either, though
    it is neither absent nor has [none] in it. *)
Lemma blank_notice_carries_no_notice :
  exists r, parse (lit "Test Snack") noticeBlankReport [] = Returned r /\
    ~ (carriesNoNotice r <-> NoticeAbsentOrNone noticeBlankReport).
Proof.
  eexists. split; [reflexivity|]. intros [Hto _].
  destruct (Hto eq_refl) as [Hn | [group1 [Hm Hs]]].
  - apply Hn. apply (findFirst_occurs _ _ [] (NL :: joinLines minimalTable)).
    reflexivity.
  - vm_compute in Hm. injection Hm as <-.
    apply includes_none_iff in Hs. discriminate.
Qed.

(** ** Scalar extraction *)

(** C8, as the code has it.  [extractValue] looks for the first occurrence
    of [KEY:] anywhere in the text, in any case and at any place of a line;
    after it the white space is skipped, line breaks too, and the rest of the
    line reached is returned, trimmed.  It returns [null] only when [KEY:]
    occurs nowhere. *)
Theorem extractValue_first_occurrence (text key : str) :
  (extractValue text key = None <-> ~ Occurs (key ++ lit ":") text) /\
  (forall pre rest,
      FirstOccurrence (key ++ lit ":") text pre rest ->
      extractValue text key = Some (trim (restOfLine (spaces rest)))) /\
  (forall v, extractValue text key = Some v ->
      exists pre rest, FirstOccurrence (key ++ lit ":") text pre rest /\
                       v = trim (restOfLine (spaces rest))).
Proof.
  split; [apply extractValue_None|]. rewrite extractValue_eq. unfold afterLiteral.
  split.
  - intros pre rest H.
    rewrite (search_literal_first (key ++ lit ":")
               (fun r => Some (restOfLine (spaces r))) text pre rest _ H eq_refl).
    reflexivity.
  - intros v H.
    destruct (search _ text) as [group1|] eqn:E; [|discriminate].
    injection H as <-.
    apply (search_literal_Some (key ++ lit ":") (fun r => restOfLine (spaces r)))
      in E as [pre [rest [Hf ->]]].
    now exists pre, rest.
Qed.

Lemma extractValue_first_occurrence_witness :
  extractValue midLineKeyReport (lit "PRODUCT")
    = Some (trim (restOfLine (spaces (lit " Wrong" ++ NL :: lit "PRODUCT: Right")))).
Proof.
  apply (proj1 (proj2 (extractValue_first_occurrence midLineKeyReport (lit "PRODUCT")))
           (lit "Our ")).
  apply findFirst_Some. reflexivity.
Defined.

(** The key is not looked for at the start of a line only: an occurrence in
    the middle of a line, or at the end of a longer word, gives the value. *)
Lemma extractValue_not_line_anchored :
  extractValue midLineKeyReport (lit "PRODUCT") = Some (lit "Wrong") /\
  extractValue_lineAnchored midLineKeyReport (lit "PRODUCT") = Some (lit "Right") /\
  extractValue longerWordKeyReport (lit "HEALTH_SCORE") = Some (lit "10") /\
  extractValue_lineAnchored longerWordKeyReport (lit "HEALTH_SCORE") = Some (lit "35") /\
  extractValue midLineKeyReport (lit "PRODUCT")
    <> extractValue_lineAnchored midLineKeyReport (lit "PRODUCT") /\
  extractValue longerWordKeyReport (lit "HEALTH_SCORE")
    <> extractValue_lineAnchored longerWordKeyReport (lit "HEALTH_SCORE").
Proof.
  repeat split; try reflexivity; vm_compute; discriminate.
Qed.

(** * More of the component *)

(** ** [analyzeFood] and the state *)

Section StateFacts.

Lemma orElseOpt_not_nil (a : option str) (b : str) : b <> [] -> orElseOpt a b <> [].
Proof. intros Hb. destruct a as [[|c a]|]; cbn [orElseOpt]; trivial. discriminate. Qed.

Lemma analyzeFood_cases (st : AppState) (u : Upstream) :
  trim (query st) <> [] ->
  (exists r, analyzeFood st u
             = {| query := query st; loading := false; result := Some r; error := None |}) \/
  (exists m, m <> [] /\
             analyzeFood st u
             = {| query := query st; loading := false; result := None; error := Some m |}).
Proof.
  intros Hq. unfold analyzeFood. destruct (trim (query st)) as [|c q]; [contradiction|].
  match goal with
  | |- context [match ?t with inl _ => _ | inr _ => _ end] => destruct t as [r|m]
  end.
  - left. now exists r.
  - right. eexists. split; [|reflexivity].
    destruct (isRateLimit m); [discriminate|]. now apply orElseOpt_not_nil.
Qed.

End StateFacts.

(** X1.  A call of [analyzeFood] with a query that is not blank ends with
    [loading] off and the query as it was, and with either a result and no
    error or an error message, never empty, and no result.  So the page then
    shows the result or the error, one of the two, and neither the spinner
    nor the suggestions. *)
Theorem analyzeFood_settles (st : AppState) (u : Upstream) :
  trim (query st) <> [] ->
  loading (analyzeFood st u) = false /\
  query (analyzeFood st u) = query st /\
  ((exists r, result (analyzeFood st u) = Some r /\ error (analyzeFood st u) = None) \/
   (result (analyzeFood st u) = None /\
    exists m, error (analyzeFood st u) = Some m /\ m <> [])) /\
  showSpinner (analyzeFood st u) = false /\
  showSuggestions (analyzeFood st u) = false /\
  xorb (showResult (analyzeFood st u)) (showError (analyzeFood st u)) = true.
Proof.
  intros Hq. destruct (analyzeFood_cases st u Hq) as [[r ->] | [m [Hm ->]]];
    cbn [loading query result error showSpinner showSuggestions showResult showError].
  - repeat split. left. now exists r.
  - destruct m as [|c m]; [contradiction|]. repeat split.
    right. split; [reflexivity|]. now exists (c :: m).
Qed.

Lemma analyzeFood_settles_witness :
  loading (analyzeFood {| query := lit "Maggi"; loading := false; result := None;
                          error := Some (lit "old") |}
                       (Rejected None)) = false.
Proof.
  apply (analyzeFood_settles
           {| query := lit "Maggi"; loading := false; result := None;
              error := Some (lit "old") |} (Rejected None)).
  discriminate.
Defined.

(** X2.  With a query of white space only, the empty one too, [analyzeFood]
    returns at once and leaves the whole state as it is, an old result or
    error included; and after [New Analysis], which empties the query, a
    submit does nothing. *)
Theorem analyzeFood_blank_query :
  (forall st u, forallb isWhiteSpace (query st) = true -> analyzeFood st u = st) /\
  (forall st u, analyzeFood (newAnalysis st) u = newAnalysis st).
Proof.
  split.
  - intros st u H. unfold analyzeFood. now rewrite (trim_whitespace _ H).
  - intros st u. reflexivity.
Qed.

Lemma analyzeFood_blank_query_witness :
  analyzeFood {| query := lit "   "; loading := false; result := None;
                 error := Some (lit "old") |}
              (Rejected None)
  = {| query := lit "   "; loading := false; result := None; error := Some (lit "old") |}.
Proof.
  apply (proj1 analyzeFood_blank_query
           {| query := lit "   "; loading := false; result := None;
              error := Some (lit "old") |}).
  reflexivity.
Defined.

(** X3.  The handler of failures.  A rejection whose message has [429] or
    [RESOURCE_EXHAUSTED] in it, in that case, gives the rate-limit message;
    any other message that is not empty is shown as it is; a missing or empty
    message gives the generic one; and a reply without text gives the
    no-data message, whatever citations it has. *)
Theorem failure_messages (st : AppState) :
  trim (query st) <> [] ->
  (forall m, Substring (lit "429") m \/ Substring (lit "RESOURCE_EXHAUSTED") m ->
             error (analyzeFood st (Rejected (Some m))) = Some RATE_LIMIT_ERROR) /\
  (forall m, m <> [] -> ~ Substring (lit "429") m ->
             ~ Substring (lit "RESOURCE_EXHAUSTED") m ->
             error (analyzeFood st (Rejected (Some m))) = Some m) /\
  error (analyzeFood st (Rejected None)) = Some GENERIC_ERROR /\
  error (analyzeFood st (Rejected (Some (lit "")))) = Some GENERIC_ERROR /\
  (forall response, text response = None \/ text response = Some (lit "") ->
                    error (analyzeFood st (Replied response)) = Some NO_DATA_ERROR /\
                    result (analyzeFood st (Replied response)) = None).
Proof.
  intros Hq. unfold analyzeFood. destruct (trim (query st)) as [|c q]; [contradiction|].
  split; [|split; [|split; [|split]]].
  - intros m H. cbn [error]. unfold isRateLimit.
    assert (E : includes m (lit "429") || includes m (lit "RESOURCE_EXHAUSTED") = true).
    { apply orb_true_iff. destruct H as [H|H]; [left | right]; now apply includes_spec. }
    now rewrite E.
  - intros m Hm H1 H2. cbn [error]. unfold isRateLimit.
    apply includes_false in H1, H2. rewrite H1, H2. cbn [orb].
    destruct m; [contradiction | reflexivity].
  - reflexivity.
  - reflexivity.
  - intros response [H|H]; rewrite H; split; reflexivity.
Qed.

Lemma failure_messages_witness :
  error (analyzeFood {| query := lit "Maggi"; loading := false; result := None;
                        error := None |}
                     (Rejected (Some (lit "got status: 429 Too Many Requests"))))
  = Some RATE_LIMIT_ERROR.
Proof.
  apply (proj1 (failure_messages
                  {| query := lit "Maggi"; loading := false; result := None;
                     error := None |} ltac:(discriminate))).
  left. exists (lit "got status: "), (lit " Too Many Requests"). reflexivity.
Defined.

(** ** Citations *)

(** X4.  The sources of a result are the web references of the grounding
    chunks, one for each chunk that has one, in the order of the chunks and
    with repetitions kept; chunks without a web reference are left out. *)
Theorem sources_of_chunks :
  (forall chunks, List.length (sourcesOf chunks) = List.length (filter hasWeb chunks)) /\
  (forall a b, sourcesOf (a ++ b) = sourcesOf a ++ sourcesOf b) /\
  (forall w chunks,
      sourcesOf ({| web := Some w |} :: chunks)
      = {| title := web_title w; uri := web_uri w |} :: sourcesOf chunks) /\
  (forall chunks, sourcesOf ({| web := None |} :: chunks) = sourcesOf chunks) /\
  (forall chunks s,
      In s (sourcesOf chunks) <->
      exists w, In {| web := Some w |} chunks /\
                s = {| title := web_title w; uri := web_uri w |}).
Proof.
  split; [|split; [|split; [|split]]].
  - induction chunks as [|[[w|]] chunks IH]; cbn; [reflexivity | now rewrite <- IH | exact IH].
  - intros a b. unfold sourcesOf. apply flat_map_app.
  - reflexivity.
  - reflexivity.
  - intros chunks s. unfold sourcesOf. rewrite in_flat_map. split.
    + intros [[[w|]] [Hin Hs]]; cbn in Hs; [|contradiction].
      destruct Hs as [<-|[]]. now exists w.
    + intros [w [Hin ->]]. exists {| web := Some w |}. split; [exact Hin | now left].
Qed.

(** X5.  The citations change nothing but the sources: whether the block
    throws, and every other field of the result, depend on the query and the
    text only, and the sources depend on the citations only. *)
Theorem citations_only_set_sources (q text : str) (chunks1 chunks2 : list Chunk) :
  match parse q text chunks1, parse q text chunks2 with
  | Returned r1, Returned r2 =>
      productName r1 = productName r2 /\ summary r1 = summary r2 /\
      ingredients r1 = ingredients r2 /\ fssaiNotice r1 = fssaiNotice r2 /\
      healthScore r1 = healthScore r2 /\
      sources r1 = sourcesOf chunks1 /\ sources r2 = sourcesOf chunks2
  | Thrown m1, Thrown m2 => m1 = m2
  | _, _ => False
  end.
Proof.
  unfold parse. destruct (List.length (ingredientsOf text) =? 0)%nat; cbn;
    repeat split.
Qed.

(** ** The table *)

Section TableFacts.

Lemma lazyUntil_findFirst (p s : str) :
  lazyUntil (literal p) s = option_map fst (findFirst p s).
Proof.
  induction s as [|c s IH]; cbn [lazyUntil findFirst].
  - now destruct (literal p []).
  - destruct (literal p (c :: s)); [reflexivity|]. rewrite IH.
    now destruct (findFirst p s) as [[pre rest]|].
Qed.

Lemma findFirst_complete (p text pre rest : str) :
  FirstOccurrence p text pre rest -> findFirst p text = Some (pre, rest).
Proof.
  revert pre. induction text as [|c t IH]; intros pre [[m [H Hs]] Hfirst];
    cbn [findFirst].
  - symmetry in H. apply app_eq_nil in H as [-> H]. apply app_eq_nil in H as [-> ->].
    assert (L : literal p [] = Some []) by (apply literal_spec; now exists []).
    now rewrite L.
  - destruct pre as [|c' pre].
    + simpl in H. assert (L : literal p (c :: t) = Some rest)
        by (apply literal_spec; now exists m).
      now rewrite L.
    + injection H as Hc H. subst c'.
      destruct (literal p (c :: t)) as [r|] eqn:E.
      * exfalso. assert (Hocc : OccursAt p (c :: t) []).
        { apply occursAt_literal. exists (c :: t). split; [reflexivity | congruence]. }
        apply Hfirst in Hocc. simpl in Hocc. lia.
      * rewrite (IH pre); [reflexivity|]. split; [now exists m|].
        intros pre' Hocc. apply (occursAt_cons p c) in Hocc.
        apply Hfirst in Hocc. simpl in Hocc. lia.
Qed.

(** The span of the table, said on the text. *)
Lemma listMatch_first (text pre rest span post : str) :
  FirstOccurrence (lit "LIST_START") text pre rest ->
  FirstOccurrence (lit "LIST_END") rest span post ->
  listMatch text = Some span.
Proof.
  intros H1 H2. rewrite listMatch_eq. unfold afterLiteral.
  apply (search_literal_first _ _ _ pre rest); [exact H1|].
  rewrite lazyUntil_findFirst, (findFirst_complete _ _ _ _ H2). reflexivity.
Qed.

Lemma listMatch_unclosed (text pre rest : str) :
  FirstOccurrence (lit "LIST_START") text pre rest ->
  ~ Occurs (lit "LIST_END") rest ->
  listMatch text = None.
Proof.
  intros H1 H2. rewrite listMatch_eq. unfold afterLiteral.
  apply search_None. intros pre' post' Ht.
  destruct (literal (lit "LIST_START") post') as [r|] eqn:E; [|reflexivity].
  rewrite lazyUntil_findFirst.
  destruct (findFirst (lit "LIST_END") r) as [[a b]|] eqn:F; [|reflexivity].
  exfalso. apply findFirst_Some in F as [[e [-> He]] _].
  apply literal_spec in E as [m [-> Hm]].
  destruct H1 as [[m0 [Ht0 Hm0]] Hfirst].
  assert (Hocc : OccursAt (lit "LIST_START") text pre').
  { rewrite Ht. now exists m, (a ++ e ++ b). }
  apply Hfirst in Hocc.
  apply H2.
  assert (Lm : List.length m = List.length m0).
  { rewrite (sameCI_length _ _ Hm), (sameCI_length _ _ Hm0). reflexivity. }
  assert (Hrest : rest = skipn (List.length pre + List.length m0) text).
  { rewrite Ht0, app_assoc, skipn_app, length_app, Nat.sub_diag, skipn_all2
      by (rewrite length_app; lia). reflexivity. }
  assert (Hsuf : skipn (List.length pre' + List.length m) text = a ++ e ++ b).
  { rewrite Ht, app_assoc, skipn_app, length_app, Nat.sub_diag, skipn_all2
      by (rewrite length_app; lia). reflexivity. }
  set (d := (List.length pre' - List.length pre)%nat).
  assert (Hd : rest = firstn d rest ++ a ++ e ++ b).
  { rewrite <- (firstn_skipn d rest) at 1. f_equal.
    rewrite Hrest, skipn_skipn, <- Hsuf. f_equal. unfold d. lia. }
  exists (firstn d rest ++ a), e, b. split; [|exact He].
  rewrite Hd at 1. now rewrite <- app_assoc.
Qed.

End TableFacts.

(** X6.  The table is what lies between the first [LIST_START] of the text
    and the first [LIST_END] after it, in any letter case: its rows are the
    lines of that span, trimmed as a whole.  So two texts with the same span
    there have the same ingredients, whatever stands before the first marker
    and after the second one. *)
Theorem table_between_first_markers (text pre rest span post : str) :
  FirstOccurrence (lit "LIST_START") text pre rest ->
  FirstOccurrence (lit "LIST_END") rest span post ->
  tableRows text = split NL (trim span) /\
  ingredientsOf text = acceptedRows (split NL (trim span)) /\
  forall text' pre' rest' post',
    FirstOccurrence (lit "LIST_START") text' pre' rest' ->
    FirstOccurrence (lit "LIST_END") rest' span post' ->
    ingredientsOf text' = ingredientsOf text.
Proof.
  intros H1 H2.
  assert (Hrows : forall t p r q,
             FirstOccurrence (lit "LIST_START") t p r ->
             FirstOccurrence (lit "LIST_END") r span q ->
             tableRows t = split NL (trim span)).
  { intros t p r q F1 F2. unfold tableRows.
    now rewrite (listMatch_first _ _ _ _ _ F1 F2). }
  split; [now apply (Hrows text pre rest post)|]. split.
  - now rewrite ingredientsOf_acceptedRows, (Hrows text pre rest post).
  - intros text' pre' rest' post' F1 F2.
    now rewrite !ingredientsOf_acceptedRows, (Hrows text pre rest post),
      (Hrows text' pre' rest' post').
Qed.

Lemma table_between_first_markers_witness :
  tableRows exampleReport
  = split NL (trim (NL :: joinLines
                      [ "Sugar | 35g per 100g | harmful | Excess refined sugar";
                        "Rice Flour | 40% | healthy | Whole grain base" ]%string
                    ++ [NL])).
Proof.
  apply (proj1 (table_between_first_markers exampleReport
                  (joinLines [ "PRODUCT: Test Snack"; "SUMMARY: High in sugar.";
                               "HEALTH_SCORE: 35"; "FSSAI_NOTICE: None" ]%string ++ [NL])
                  (NL :: joinLines
                      [ "Sugar | 35g per 100g | harmful | Excess refined sugar";
                        "Rice Flour | 40% | healthy | Whole grain base";
                        "LIST_END" ]%string)
                  _ []
                  ltac:(apply findFirst_Some; reflexivity)
                  ltac:(apply findFirst_Some; reflexivity))).
Defined.

(** X7.  A table that is not closed is rejected: when no [LIST_END] follows
    the first [LIST_START], the block throws the error of the ingredient
    list, also when rows stand after the marker; so it does for a text
    without any [LIST_END]. *)
Theorem unclosed_table_rejected :
  (forall q text chunks pre rest,
      FirstOccurrence (lit "LIST_START") text pre rest ->
      ~ Occurs (lit "LIST_END") rest ->
      parse q text chunks = Thrown LIST_ERROR) /\
  (forall q text chunks,
      ~ Occurs (lit "LIST_END") text -> parse q text chunks = Thrown LIST_ERROR).
Proof.
  assert (Hnone : forall q text chunks,
             listMatch text = None -> parse q text chunks = Thrown LIST_ERROR).
  { intros q text chunks H. apply parse_nil. unfold ingredientsOf, tableRows.
    now rewrite H. }
  split.
  - intros q text chunks pre rest H1 H2. apply Hnone.
    now apply (listMatch_unclosed text pre rest).
  - intros q text chunks H. apply Hnone.
    destruct (findFirst (lit "LIST_START") text) as [[pre rest]|] eqn:F.
    + apply findFirst_Some in F. apply (listMatch_unclosed text pre rest F).
      intros [a [m [b [Hr Hm]]]]. apply H.
      destruct F as [[m0 [-> _]] _]. exists (pre ++ m0 ++ a), m, b.
      split; [|exact Hm]. rewrite Hr. now rewrite <- !app_assoc.
    + apply findFirst_None in F. rewrite listMatch_eq. unfold afterLiteral.
      now apply search_literal_None.
Qed.

Lemma unclosed_table_rejected_witness :
  parse (lit "Test Snack")
        (joinLines [ "PRODUCT: Test Snack"; "LIST_START";
                     "Sugar | 10g | harmful | reason" ]%string) []
  = Thrown LIST_ERROR.
Proof.
  apply (proj2 unclosed_table_rejected). apply findFirst_None. reflexivity.
Defined.

(** ** The ingredients and their fields *)

Section FieldFacts.

Lemma in_dropWhile (p : char -> bool) (c : char) (s : str) :
  In c (dropWhile p s) -> In c s.
Proof.
  induction s as [|d s IH]; cbn [dropWhile]; [trivial|].
  destruct (p d); [|trivial]. intros H. right. now apply IH.
Qed.

Lemma in_trim (c : char) (s : str) : In c (trim s) -> In c s.
Proof.
  unfold trim, trimEnd, trimStart. intros H.
  apply in_rev, in_dropWhile, in_rev in H. now apply in_dropWhile in H.
Qed.

Lemma in_stripMarker (c : char) (row : str) : In c (stripMarker row) -> In c row.
Proof.
  rewrite stripMarker_eq. destruct row as [|d rest]; [trivial|].
  destruct (isListMarker d); [|trivial]. intros H. right.
  now apply in_dropWhile in H.
Qed.

(** A piece of [split] has no separator in it and is made of code units of
    the string. *)
Lemma in_split (sep : char) (s piece : str) :
  In piece (split sep s) -> ~ In sep piece /\ forall c, In c piece -> In c s.
Proof.
  revert piece; induction s as [|d s IH]; intros piece; cbn [split].
  - intros [<-|[]]. split; [intros [] | intros c []].
  - destruct (N.eqb_spec d sep) as [->|Hne].
    + intros [<-|H]; [split; [intros [] | intros c []]|].
      destruct (IH piece H) as [H1 H2]. split; [exact H1|].
      intros c Hc. right. now apply H2.
    + pose proof (split_not_nil sep s) as Hnn.
      destruct (split sep s) as [|p0 ps]; [contradiction|].
      intros [<-|H].
      * destruct (IH p0 (or_introl eq_refl)) as [H1 H2]. split.
        -- intros [E|E]; [now apply Hne | now apply H1].
        -- intros c [<-|Hc]; [now left | right; now apply H2].
      * destruct (IH piece (or_intror H)) as [H1 H2]. split; [exact H1|].
        intros c Hc. right. now apply H2.
Qed.

Lemma dropWhile_app_last (p : char -> bool) (x : str) (c : char) :
  p c = false -> exists l, dropWhile p (x ++ [c]) = l ++ [c].
Proof.
  intros Hc. induction x as [|d x [l IH]]; cbn [app dropWhile].
  - rewrite Hc. now exists [].
  - destruct (p d); [now exists l | now exists (d :: x)].
Qed.

(** Trimming twice is trimming once. *)
Lemma trim_idempotent (s : str) : trim (trim s) = trim s.
Proof.
  assert (Hend : forall t, trimEnd (trimEnd t) = trimEnd t).
  { intros t. unfold trimEnd. now rewrite rev_involutive, dropWhile_idem. }
  assert (Hstart : forall t, dropWhile isWhiteSpace t = t ->
                             dropWhile isWhiteSpace (trimEnd t) = trimEnd t).
  { intros [|c t] Ht; [reflexivity|].
    assert (Hc : isWhiteSpace c = false) by (eapply dropWhile_head; exact Ht).
    unfold trimEnd. cbn [rev].
    destruct (dropWhile_app_last isWhiteSpace (rev t) c Hc) as [l Hl].
    rewrite Hl, rev_app_distr. cbn [rev app]. now apply dropWhile_id. }
  unfold trim, trimStart. rewrite Hstart by apply dropWhile_idem. apply Hend.
Qed.

(** A string is its trimmed part with white space around it. *)
Lemma trim_decompose (s : str) : exists a b, s = a ++ trim s ++ b.
Proof.
  assert (Hdrop : forall p (t : str), exists a, t = a ++ dropWhile p t).
  { intros p t. induction t as [|d t [a IH]]; cbn [dropWhile]; [now exists []|].
    destruct (p d); [|now exists []]. exists (d :: a). cbn [app]. now f_equal. }
  destruct (Hdrop isWhiteSpace s) as [a Ha].
  destruct (Hdrop isWhiteSpace (rev (dropWhile isWhiteSpace s))) as [b Hb].
  exists a, (rev b). unfold trim, trimEnd, trimStart.
  rewrite <- rev_app_distr, <- Hb, rev_involutive. exact Ha.
Qed.

Lemma rowParts_field (row f : str) :
  In f (rowParts row) ->
  ~ In PIPE f /\ (forall c, In c f -> In c row) /\ trim f = f.
Proof.
  unfold rowParts. rewrite in_map_iff. intros [piece [<- Hp]].
  apply in_split in Hp as [H1 H2]. split; [|split].
  - intros H. apply H1. now apply in_trim.
  - intros c Hc. apply in_trim in Hc. apply H2 in Hc.
    now apply in_trim, in_stripMarker in Hc.
  - apply trim_idempotent.
Qed.

Lemma tableRows_no_NL (text row : str) : In row (tableRows text) -> ~ In NL row.
Proof.
  unfold tableRows. destruct (listMatch text); [|intros []].
  intros H. now apply in_split in H as [H _].
Qed.

Lemma in_acceptedRows (rows : list str) (i : Ingredient) :
  In i (acceptedRows rows) <-> exists row, In row rows /\ parseRow row = Some i.
Proof.
  unfold acceptedRows. rewrite in_flat_map. split; intros [row [H1 H2]]; exists row;
    (split; [exact H1|]).
  - destruct (parseRow row); [|contradiction]. destruct H2 as [->|[]]. reflexivity.
  - rewrite H2. now left.
Qed.

Lemma length_acceptedRows (rows : list str) :
  List.length (acceptedRows rows)
  = List.length (filter (fun row => (3 <=? List.length (split PIPE row))%nat) rows).
Proof.
  unfold acceptedRows. induction rows as [|row rows IH]; [reflexivity|].
  cbn [flat_map filter]. rewrite length_app, IH.
  pose proof (parseRow_None row) as H.
  destruct (Nat.leb_spec 3 (List.length (split PIPE row))) as [L|L].
  - destruct (parseRow row); [reflexivity|].
    assert (List.length (split PIPE row) < 3)%nat by now apply H. lia.
  - apply H in L. now rewrite L.
Qed.

End FieldFacts.

(** X8.  The ingredients are the accepted lines of the table in their
    order, repeated lines repeated: there are as many ingredients as lines
    with three fields or more, so never more than lines, and the ingredients
    of two runs of lines are those of the first run followed by those of the
    second. *)
Theorem ingredients_follow_rows :
  (forall text,
      List.length (ingredientsOf text)
      = List.length (filter (fun row => (3 <=? List.length (split PIPE row))%nat)
                            (tableRows text))) /\
  (forall text, (List.length (ingredientsOf text) <= List.length (tableRows text))%nat) /\
  (forall rows1 rows2,
      fold_left rowStep (rows1 ++ rows2) []
      = fold_left rowStep rows1 [] ++ fold_left rowStep rows2 []) /\
  (forall text i,
      In i (ingredientsOf text) <->
      exists row, In row (tableRows text) /\ parseRow row = Some i).
Proof.
  split; [|split; [|split]].
  - intros text. now rewrite ingredientsOf_acceptedRows, length_acceptedRows.
  - intros text. rewrite ingredientsOf_acceptedRows, length_acceptedRows.
    apply filter_length_le.
  - intros rows1 rows2. rewrite !fold_rowStep. cbn [app].
    unfold acceptedRows. apply flat_map_app.
  - intros text i. rewrite ingredientsOf_acceptedRows. apply in_acceptedRows.
Qed.

(** X9.  No field of an ingredient holds a pipe or a line feed, and none
    has white space at its ends; the quantity and the description are never
    empty. *)
Theorem ingredient_fields_clean (text : str) (i : Ingredient) :
  In i (ingredientsOf text) ->
  (forall f, In f [name i; quantity i; description i] ->
             ~ In PIPE f /\ ~ In NL f /\ trim f = f) /\
  quantity i <> [] /\ description i <> [].
Proof.
  rewrite ingredientsOf_acceptedRows, in_acceptedRows.
  intros [row [Hrow Hi]]. apply tableRows_no_NL in Hrow.
  assert (Hpart : forall f, In f (rowParts row) ->
                            ~ In PIPE f /\ ~ In NL f /\ trim f = f).
  { intros f Hf. apply rowParts_field in Hf as [H1 [H2 H3]].
    split; [exact H1|]. split; [|exact H3]. intros H. now apply Hrow, H2. }
  assert (Hnil : ~ In PIPE (@nil char) /\ ~ In NL (@nil char) /\ trim [] = [])
    by (repeat split; intros []).
  assert (Hnth : forall n, ~ In PIPE (nth n (rowParts row) []) /\
                           ~ In NL (nth n (rowParts row) []) /\
                           trim (nth n (rowParts row) []) = nth n (rowParts row) []).
  { intros n. destruct (nth_in_or_default n (rowParts row) []) as [H | ->];
      [now apply Hpart | exact Hnil]. }
  assert (Hdefault : forall d, In d [DEFAULT_QUANTITY; DEFAULT_DESCRIPTION] ->
                               ~ In PIPE d /\ ~ In NL d /\ trim d = d).
  { intros d [<-|[<-|[]]]; (split; [|split]); try reflexivity;
      intros H; vm_compute in H; repeat (destruct H as [H|H]; [discriminate H|]);
      exact H. }
  unfold parseRow in Hi.
  pose proof (Hnth 0%nat) as H0. pose proof (Hnth 1%nat) as H1.
  assert (H3 : forall d3, nth_error (rowParts row) 3 = Some d3 ->
                          ~ In PIPE d3 /\ ~ In NL d3 /\ trim d3 = d3).
  { intros d3 E. apply Hpart. exact (nth_error_In _ _ E). }
  remember (nth 0 (rowParts row) []) as f0.
  remember (nth 1 (rowParts row) []) as f1.
  remember (nth_error (rowParts row) 3) as f3.
  destruct (3 <=? List.length (rowParts row))%nat; [|discriminate].
  injection Hi as <-. cbn [name quantity description]. split; [|split].
  - intros f [<-|[<-|[<-|[]]]].
    + exact H0.
    + unfold orElse. destruct f1; [apply Hdefault; now left | exact H1].
    + destruct f3 as [[|c d]|]; cbn [orElseOpt];
        [apply Hdefault; right; now left | now apply H3
        | apply Hdefault; right; now left].
  - unfold orElse. destruct f1; discriminate.
  - destruct f3 as [[|c d]|]; discriminate.
Qed.

Lemma ingredient_fields_clean_witness :
  quantity {| name := lit "Sugar"; quantity := lit "35g per 100g"; status := harmful;
              description := lit "Excess refined sugar" |} <> [].
Proof.
  apply (ingredient_fields_clean exampleReport
           {| name := lit "Sugar"; quantity := lit "35g per 100g"; status := harmful;
              description := lit "Excess refined sugar" |}).
  vm_compute. left. reflexivity.
Defined.

(** ** The two columns and the score badge *)



(** X11.  The badge and the bar are drawn for [healthScore || 50], and
    always in the same colour: green from 70 on, orange from 40 to 69 and red
    below 40, but for the score 0, which is falsy and is drawn in orange as
    50 is, like a result without a score. *)
Theorem score_colours (r : AnalysisResult) :
  match healthScore r with
  | Some n =>
      (badgeClasses r = lit "text-emerald-600 border-emerald-100 bg-emerald-50" <->
       (70 <= n)%Z) /\
      (badgeClasses r = lit "text-orange-600 border-orange-100 bg-orange-50" <->
       (40 <= n < 70)%Z \/ n = 0%Z) /\
      (badgeClasses r = lit "text-rose-600 border-rose-100 bg-rose-50" <->
       (n < 40)%Z /\ n <> 0%Z) /\
      (barClasses r = lit "bg-emerald-600" <-> (70 <= n)%Z) /\
      (barClasses r = lit "bg-orange-600" <-> (40 <= n < 70)%Z \/ n = 0%Z) /\
      (barClasses r = lit "bg-rose-600" <-> (n < 40)%Z /\ n <> 0%Z)
  | None =>
      badgeClasses r = lit "text-orange-600 border-orange-100 bg-orange-50" /\
      barClasses r = lit "bg-orange-600"
  end.
Proof.
  unfold badgeClasses, barClasses, scoreOrDefault.
  destruct (healthScore r) as [n|]; [|split; reflexivity].
  destruct (Z.eq_dec n 0) as [->|Hn].
  - repeat split; intros; try reflexivity; try discriminate; try lia.
  - assert (E : match n with 0%Z => 50%Z | _ => n end = n) by now destruct n.
    rewrite E. unfold getScoreColor, getScoreBg.
    destruct (Z.leb_spec 70 n); [|destruct (Z.leb_spec 40 n)];
      repeat split; intros; try reflexivity; try discriminate; try lia.
Qed.

(** ** The summary, the notice and the scalar values *)

Section SpanFacts.

(** Before the end of a lazy capture the rest of the pattern matches
    nowhere. *)
Lemma lazyUntil_before {A : Type} (k : str -> option A) (s cap : str) :
  lazyUntil k s = Some cap ->
  forall a b, cap = a ++ b -> b <> [] -> k (b ++ skipn (List.length cap) s) = None.
Proof.
  revert cap; induction s as [|c s IH]; intros cap; cbn [lazyUntil].
  - destruct (k []) as [x|]; [|discriminate]. intros H; injection H as <-.
    intros a b H Hb. symmetry in H. apply app_eq_nil in H as [_ ->]. contradiction.
  - destruct (k (c :: s)) as [x|] eqn:E.
    + intros H; injection H as <-. intros a b H Hb.
      symmetry in H. apply app_eq_nil in H as [_ ->]. contradiction.
    + destruct (lazyUntil k s) as [cap'|] eqn:L; [|discriminate].
      intros H; injection H as <-. intros a b H Hb. cbn [List.length skipn].
      destruct a as [|c' a].
      * simpl in H. subst b. cbn [app].
        destruct (lazyUntil_prefix k s cap' L) as [rest Hrest].
        assert (Hs : cap' ++ skipn (List.length cap') s = s).
        { rewrite Hrest, skipn_app, Nat.sub_diag, skipn_all. reflexivity. }
        now rewrite Hs.
      * injection H as _ H. now apply (IH cap' eq_refl a b).
Qed.

Lemma sameCI_nil (m p : str) : sameCI m p -> p <> [] -> m <> [].
Proof. intros H Hp ->. apply sameCI_length in H. destruct p; [contradiction | discriminate]. Qed.

(** The capture of a span pattern holds none of the markers of its
    look-ahead. *)
Lemma lazyUntil_no_marker (markers : list str) (s cap m : str) :
  lazyUntil (lookahead markers) s = Some cap -> In m markers -> m <> [] ->
  ~ Occurs m cap.
Proof.
  intros L Hin Hm [pre [mm [post [Hcap Hs]]]].
  pose proof (lazyUntil_before _ _ _ L pre (mm ++ post) Hcap) as H.
  assert (Hne : mm ++ post <> []).
  { pose proof (sameCI_nil _ _ Hs Hm). destruct mm; [contradiction | discriminate]. }
  specialize (H Hne). unfold lookahead in H.
  assert (E : existsb (fun p => match literal p ((mm ++ post) ++ skipn (List.length cap) s)
                                with Some _ => true | None => false end) markers = true).
  { apply existsb_exists. exists m. split; [exact Hin|].
    assert (Le : literal m ((mm ++ post) ++ skipn (List.length cap) s)
                 = Some (post ++ skipn (List.length cap) s)).
    { apply literal_spec. exists mm. split; [now rewrite <- app_assoc | exact Hs]. }
    now rewrite Le. }
  rewrite E in H. discriminate.
Qed.

Lemma occurs_trim (p s : str) : Occurs p (trim s) -> Occurs p s.
Proof.
  intros [pre [m [post [H Hs]]]]. destruct (trim_decompose s) as [a [b Hab]].
  exists (a ++ pre), m, (post ++ b). split; [|exact Hs].
  rewrite Hab at 1. rewrite H. now rewrite <- !app_assoc.
Qed.

Lemma substring_trim_lower (sub s : str) :
  Substring sub (toLowerCase (trim s)) -> Substring sub (toLowerCase s).
Proof.
  intros [pre [post H]]. destruct (trim_decompose s) as [a [b Hab]].
  exists (toLowerCase a ++ pre), (post ++ toLowerCase b).
  rewrite Hab at 1. rewrite !toLowerCase_app, H. now rewrite <- !app_assoc.
Qed.

Lemma span_capture (key : str) (markers : list str) (text cap : str) :
  afterLiteral key (fun r => lazyUntil (lookahead markers) (spaces r)) text = Some cap ->
  exists r, lazyUntil (lookahead markers) (spaces r) = Some cap.
Proof.
  unfold afterLiteral. intros H. apply search_Some in H as [pre [post [_ [H _]]]].
  destruct (literal key post) as [r|]; [|discriminate]. now exists r.
Qed.

Lemma takeWhile_forallb (p : char -> bool) (s : str) : forallb p (takeWhile p s) = true.
Proof.
  induction s as [|c s IH]; [reflexivity|]. cbn [takeWhile].
  destruct (p c) eqn:E; [|reflexivity]. cbn [forallb]. now rewrite E, IH.
Qed.

Lemma forallb_trim (p : char -> bool) (s : str) :
  forallb p s = true -> forallb p (trim s) = true.
Proof.
  rewrite !forallb_forall. intros H c Hc. apply H. now apply in_trim.
Qed.

End SpanFacts.

(** X12.  The summary is the fixed text [Analysis complete.] when the text
    has no [SUMMARY:]; however it is obtained, it has no white space at its
    ends and none of the markers [HEALTH_SCORE], [FSSAI_NOTICE] and
    [LIST_START] in it, in any letter case: the span stops where the first of
    them starts. *)
Theorem summary_stops_at_markers (text : str) :
  (~ Occurs (lit "SUMMARY:") text -> summaryOf text = lit "Analysis complete.") /\
  trim (summaryOf text) = summaryOf text /\
  ~ Occurs (lit "HEALTH_SCORE") (summaryOf text) /\
  ~ Occurs (lit "FSSAI_NOTICE") (summaryOf text) /\
  ~ Occurs (lit "LIST_START") (summaryOf text).
Proof.
  unfold summaryOf. rewrite summaryMatch_eq.
  split.
  - intros H. unfold afterLiteral.
    now rewrite (search_literal_None (lit "SUMMARY:") _ text H).
  - destruct (afterLiteral _ _ text) as [cap|] eqn:E.
    + apply span_capture in E as [r L]. split; [apply trim_idempotent|].
      repeat split; intros H; apply occurs_trim in H; revert H;
        apply (lazyUntil_no_marker _ _ _ _ L); simpl; try tauto; discriminate.
    + split; [reflexivity|].
      repeat split; apply findFirst_None; reflexivity.
Qed.

Lemma summary_stops_at_markers_witness :
  summaryOf noticeDyeReport = lit "Analysis complete.".
Proof.
  apply (proj1 (summary_stops_at_markers noticeDyeReport)).
  apply findFirst_None. reflexivity.
Defined.

(** X13.  The notice of a result never has [none] in it, in any letter
    case, nor a [LIST_START], and it has no white space at its ends. *)
Theorem notice_never_none (text : str) :
  ~ Substring (lit "none") (toLowerCase (fssaiNoticeOf text)) /\
  ~ Occurs (lit "LIST_START") (fssaiNoticeOf text) /\
  trim (fssaiNoticeOf text) = fssaiNoticeOf text /\
  forall q chunks r, parse q text chunks = Returned r ->
                     fssaiNotice r = Some (fssaiNoticeOf text).
Proof.
  assert (Hempty : ~ Substring (lit "none") (toLowerCase (lit "")) /\
                   ~ Occurs (lit "LIST_START") (lit "") /\ trim (lit "") = lit "").
  { split; [now apply includes_false | split; [now apply findFirst_None | reflexivity]]. }
  assert (Hmain : ~ Substring (lit "none") (toLowerCase (fssaiNoticeOf text)) /\
                  ~ Occurs (lit "LIST_START") (fssaiNoticeOf text) /\
                  trim (fssaiNoticeOf text) = fssaiNoticeOf text).
  { unfold fssaiNoticeOf. rewrite fssaiMatch_eq.
    destruct (afterLiteral _ _ text) as [cap|] eqn:E; [|exact Hempty].
    destruct (includes (toLowerCase cap) (lit "none")) eqn:I; cbn [negb];
      [exact Hempty|].
    apply span_capture in E as [r L]. split; [|split].
    - intros H. apply substring_trim_lower in H. apply includes_spec in H. congruence.
    - intros H. apply occurs_trim in H. revert H.
      apply (lazyUntil_no_marker _ _ _ _ L); [now left | discriminate].
    - apply trim_idempotent. }
  destruct Hmain as [H1 [H2 H3]]. repeat split; trivial.
  intros q chunks r H. now apply parse_Returned in H as [_ ->].
Qed.

Lemma notice_never_none_witness :
  exists r, parse (lit "Test Snack") noticeDyeReport [] = Returned r /\
            fssaiNotice r = Some (fssaiNoticeOf noticeDyeReport).
Proof.
  eexists. split; [reflexivity|].
  apply (proj2 (proj2 (proj2 (notice_never_none noticeDyeReport)))
           (lit "Test Snack") []).
  reflexivity.
Defined.

(** X14.  A value that [extractValue] returns is one line without white
    space at its ends: it holds no line terminator. *)
Theorem extractValue_one_line (text key v : str) :
  extractValue text key = Some v ->
  trim v = v /\ forallb (fun c => negb (isLineTerminator c)) v = true.
Proof.
  rewrite extractValue_eq. unfold afterLiteral.
  destruct (search _ text) as [group1|] eqn:E; [|discriminate].
  intros H; injection H as <-. split; [apply trim_idempotent|].
  apply search_Some in E as [pre [post [_ [E _]]]].
  destruct (literal (key ++ lit ":") post) as [r|]; [|discriminate].
  injection E as <-. apply forallb_trim. unfold restOfLine.
  apply (takeWhile_forallb notLineTerminator).
Qed.

Lemma extractValue_one_line_witness :
  trim (lit "Test Snack") = lit "Test Snack" /\
  forallb (fun c => negb (isLineTerminator c)) (lit "Test Snack") = true.
Proof.
  apply (extractValue_one_line exampleReport (lit "PRODUCT")). reflexivity.
Defined.

(** X15.  Every result that [analyzeFood] stores has a product name that
    is not empty (the value of [PRODUCT:], or the query when that is missing
    or empty), at least one ingredient, a score and a notice field; it comes
    from the parsing block run on the text of the reply. *)
Theorem stored_result_invariant (st : AppState) (u : Upstream) (r : AnalysisResult) :
  result (analyzeFood st u) = Some r ->
  trim (query st) <> [] ->
  productName r <> [] /\
  ingredients r <> [] /\
  (exists n, healthScore r = Some n) /\
  (exists notice, fssaiNotice r = Some notice) /\
  exists response t,
    u = Replied response /\ text response = Some t /\ t <> [] /\
    parse (query st) t
          (match groundingChunks response with Some cs => cs | None => [] end)
    = Returned r.
Proof.
  intros H Hq. unfold analyzeFood in H.
  destruct (trim (query st)) as [|c0 q0] eqn:Eq; [contradiction|].
  assert (Hquery : query st <> []).
  { intros E. rewrite E in Eq. discriminate. }
  destruct u as [response|message]; [|discriminate].
  destruct (text response) as [t|] eqn:Et; [|discriminate].
  destruct t as [|c t]; [discriminate|]. cbn [orElseOpt] in H.
  destruct (parse (query st) (c :: t) _) as [r'|m] eqn:P; [|discriminate].
  cbn [result] in H. injection H as ->.
  pose proof P as P'. apply parse_Returned in P' as [Hne Hr].
  split; [|split; [|split; [|split]]].
  - rewrite Hr. cbn [productName]. unfold productNameOf. now apply orElseOpt_not_nil.
  - rewrite Hr. exact Hne.
  - rewrite Hr. cbn [healthScore]. eauto.
  - rewrite Hr. cbn [fssaiNotice]. eauto.
  - exists response, (c :: t). repeat split; trivial. discriminate.
Qed.

Lemma stored_result_invariant_witness :
  exists r,
    result (analyzeFood {| query := lit "Maggi"; loading := false; result := None;
                           error := None |}
                        (Replied {| text := Some exampleReport;
                                    groundingChunks := None |})) = Some r /\
    productName r <> [].
Proof.
  eexists. split; [vm_compute; reflexivity|].
  apply (stored_result_invariant
           {| query := lit "Maggi"; loading := false; result := None; error := None |}
           (Replied {| text := Some exampleReport; groundingChunks := None |})).
  - vm_compute. reflexivity.
  - vm_compute. discriminate.
Defined.

(** ** Reading the score *)

Section ParseIntFacts.










Lemma trimStart_trim (s : str) : trimStart (trim s) = trim s.
Proof.
  unfold trim, trimStart.
  destruct (dropWhile isWhiteSpace s) as [|c t] eqn:E; [reflexivity|].
  assert (Hc : isWhiteSpace c = false) by (eapply dropWhile_head; exact E).
  unfold trimEnd. cbn [rev].
  destruct (dropWhile_app_last isWhiteSpace (rev t) c Hc) as [l Hl].
  rewrite Hl, rev_app_distr. cbn [rev app]. now apply dropWhile_id.
Qed.

(** Without a minus sign up front, what [parseInt] reads is not negative. *)
Lemma parseInt_sign (v : str) (n : Z) :
  parseInt v = Some n -> (n < 0)%Z -> exists r, trimStart v = ch "-" :: r.
Proof.
  unfold parseInt. destruct (trimStart v) as [|c r] eqn:E.
  - cbn. discriminate.
  - destruct (N.eqb_spec c (ch "-")) as [->|Hc]; [intros _ _; now exists r|].
    assert (Hpos : forall (S1 : str),
               (let '(R, S2) :=
                  match S1 with
                  | a :: b :: r0 =>
                      if (a =? ch "0") && ((b =? ch "x") || (b =? ch "X"))
                      then (16, r0) else (10, S1)
                  | _ => (10, S1)
                  end in
                match digitsPrefix R S2 with
                | [] => None
                | ds => Some (1 * Z.of_N (mathInt R ds))%Z
                end) = Some n -> (0 <= n)%Z).
    { intros S1.
      destruct S1 as [|a [|b r0]]; cbv zeta iota beta;
        try destruct ((a =? ch "0") && ((b =? ch "x") || (b =? ch "X")));
        match goal with
        | |- context [digitsPrefix ?R ?S] => destruct (digitsPrefix R S)
        end; try discriminate; intros H;
        apply (f_equal (fun o => match o with Some z => z | None => 0%Z end)) in H;
        cbv beta iota in H; rewrite Z.mul_1_l in H; subst n; apply N2Z.is_nonneg. }
    destruct (c =? ch "+"); intros H Hn;
      [pose proof (Hpos r H) | pose proof (Hpos (c :: r) H)]; lia.
Qed.

End ParseIntFacts.



(** X17.  The score of a result is negative only when the value extracted
    for [HEALTH_SCORE] starts with a minus sign; in every other case it is 0
    or more. *)
Theorem score_negative_needs_minus
        (q text : str) (chunks : list Chunk) (r : AnalysisResult) (n : Z) :
  parse q text chunks = Returned r ->
  healthScore r = Some n ->
  (n < 0)%Z ->
  exists rest, extractValue text (lit "HEALTH_SCORE") = Some (ch "-" :: rest).
Proof.
  intros H Hn Hneg. apply parse_Returned in H as [_ ->]. cbn [healthScore] in Hn.
  injection Hn as <-. unfold healthScoreOf in Hneg.
  destruct (extractValue text (lit "HEALTH_SCORE")) as [[|c v]|] eqn:E;
    cbn [orElseOpt] in Hneg; try (vm_compute in Hneg; discriminate).
  destruct (parseInt (c :: v)) as [n|] eqn:P; [|lia].
  destruct (parseInt_sign _ _ P Hneg) as [rest Hrest].
  assert (Ht : trimStart (c :: v) = c :: v).
  { rewrite extractValue_eq in E. destruct (afterLiteral _ _ text) as [g|]; [|discriminate].
    injection E as E. rewrite <- E. apply trimStart_trim. }
  rewrite Ht in Hrest. exists rest. now rewrite Hrest.
Qed.

Lemma score_negative_needs_minus_witness :
  exists rest, extractValue scoreNegativeReport (lit "HEALTH_SCORE")
               = Some (ch "-" :: rest).
Proof.
  apply (score_negative_needs_minus (lit "Test Snack") scoreNegativeReport []
           _ (-5)%Z eq_refl eq_refl).
  reflexivity.
Defined.

(** ** The alert *)

(** X18.  The regulatory alert is drawn for a result exactly when the
    pattern of [FSSAI_NOTICE] captures a text that is not empty and has no
    [none] in it, in any letter case; the text drawn is that capture,
    trimmed. *)
Theorem alert_shown_iff (q text : str) (chunks : list Chunk) (r : AnalysisResult) :
  parse q text chunks = Returned r ->
  (showNotice r = true <->
   exists group1, fssaiMatch text = Some group1 /\ group1 <> [] /\
                  ~ Substring (lit "none") (toLowerCase group1)) /\
  (showNotice r = true ->
   exists group1, fssaiMatch text = Some group1 /\ fssaiNotice r = Some (trim group1)).
Proof.
  intros H. apply parse_Returned in H as [_ ->]. unfold showNotice. cbn [fssaiNotice].
  unfold fssaiNoticeOf. destruct (fssaiMatch text) as [g|] eqn:M.
  - pose proof (includes_none_iff g) as Hi.
    destruct (includes (toLowerCase g) (lit "none")) eqn:I; cbn [negb truthy].
    + split; [|discriminate]. split; [discriminate|].
      intros [g' [Hg [_ Hn]]]. injection Hg as <-. exfalso. now apply Hn, Hi.
    + assert (Hhead : dropWhile isWhiteSpace g = g).
      { rewrite fssaiMatch_eq in M. now apply search_span_capture in M. }
      destruct (trim g) as [|c t] eqn:T; cbn [truthy].
      * split; [|discriminate]. split; [discriminate|].
        intros [g' [Hg [Hne _]]]. injection Hg as <-.
        exfalso. apply Hne. now apply trim_nil_of_head.
      * split.
        -- split; [|reflexivity]. intros _. exists g. repeat split.
           ++ intros ->. discriminate T.
           ++ intros Hs. apply Hi in Hs. discriminate.
        -- intros _. exists g. split; [reflexivity | now rewrite T].
  - cbn [truthy]. split; [|discriminate]. split; [discriminate|].
    intros [g [Hg _]]. discriminate.
Qed.

Lemma alert_shown_iff_witness :
  exists r, parse (lit "Test Snack") noticeDyeReport [] = Returned r /\
    exists group1, fssaiMatch noticeDyeReport = Some group1 /\
                   fssaiNotice r = Some (trim group1).
Proof.
  eexists. split; [reflexivity|].
  apply (proj2 (alert_shown_iff (lit "Test Snack") noticeDyeReport [] _ eq_refl)).
  reflexivity.
Defined.

(** ** Missing and empty values *)

Section EmptyValueFacts.

(** White space is no letter, so a pattern letter never matches it. *)
Lemma space_canonical (c : char) : isWhiteSpace c = true -> canonicalize c = c.
Proof.
  intros Hw. unfold canonicalize.
  destruct ((0x61 <=? c) && (c <=? 0x7A)) eqn:E; [|reflexivity].
  apply andb_true_iff in E as [E1 E2]. apply N.leb_le in E1, E2.
  exfalso. unfold isWhiteSpace in Hw.
  rewrite ?orb_true_iff, ?andb_true_iff, ?N.leb_le, ?N.eqb_eq in Hw. lia.
Qed.

Lemma spaces_app (ws s : str) :
  forallb isWhiteSpace ws = true -> spaces (ws ++ s) = spaces s.
Proof.
  unfold spaces. induction ws as [|c ws IH]; [reflexivity|].
  cbn [forallb app dropWhile]. intros H. apply andb_true_iff in H as [-> H]. now apply IH.
Qed.

(** A text that matches a marker which starts with a letter does not start
    with white space. *)
Lemma spaces_marker (a : char) (p m post : str) :
  sameCI m (a :: p) -> isWhiteSpace (canonicalize a) = false ->
  spaces (m ++ post) = m ++ post.
Proof.
  intros Hs Ha. destruct m as [|c m]; [apply sameCI_length in Hs; discriminate|].
  unfold sameCI in Hs. cbn [map] in Hs. injection Hs as Hc _.
  unfold spaces. cbn [app]. apply dropWhile_id.
  destruct (isWhiteSpace c) eqn:E; [|reflexivity].
  apply space_canonical in E as E'. rewrite E' in Hc. rewrite Hc in E. congruence.
Qed.

Lemma lazyUntil_here {A : Type} (k : str -> option A) (s : str) :
  k s <> None -> lazyUntil k s = Some [].
Proof.
  intros H. destruct s; cbn [lazyUntil]; destruct (k _); congruence.
Qed.

End EmptyValueFacts.

(** X19.  A [SUMMARY:] that is there but empty gives the empty summary and
    not the fixed text: when only white space stands between the first
    [SUMMARY:] and a [HEALTH_SCORE], [FSSAI_NOTICE] or [LIST_START], or the
    end of the text, the summary of the result is the empty string. *)
Theorem empty_summary_kept (text pre ws tail : str) :
  FirstOccurrence (lit "SUMMARY:") text pre (ws ++ tail) ->
  forallb isWhiteSpace ws = true ->
  (tail = [] \/
   exists m post, tail = m ++ post /\
     (sameCI m (lit "HEALTH_SCORE") \/ sameCI m (lit "FSSAI_NOTICE") \/
      sameCI m (lit "LIST_START"))) ->
  summaryOf text = lit "" /\
  forall q chunks r, parse q text chunks = Returned r -> summary r = lit "".
Proof.
  intros Hfirst Hws Htail.
  assert (Hsum : summaryOf text = lit "").
  { unfold summaryOf. rewrite summaryMatch_eq. unfold afterLiteral.
    rewrite (search_literal_first (lit "SUMMARY:")
               (fun r => lazyUntil
                           (lookahead [lit "HEALTH_SCORE"; lit "FSSAI_NOTICE";
                                       lit "LIST_START"]) (spaces r))
               text pre (ws ++ tail) [] Hfirst); [reflexivity|].
    rewrite (spaces_app ws tail Hws). apply lazyUntil_here.
    destruct Htail as [->|[m [post [-> Hm]]]]; [discriminate|].
    assert (Hsp : spaces (m ++ post) = m ++ post).
    { destruct Hm as [Hm|[Hm|Hm]];
        apply (spaces_marker _ _ _ _ Hm); reflexivity. }
    rewrite Hsp. unfold lookahead.
    assert (E : existsb (fun p => match literal p (m ++ post) with
                                  | Some _ => true
                                  | None => false
                                  end)
                        [lit "HEALTH_SCORE"; lit "FSSAI_NOTICE"; lit "LIST_START"]
                = true).
    { apply existsb_exists.
      destruct Hm as [Hm|[Hm|Hm]];
        [exists (lit "HEALTH_SCORE") | exists (lit "FSSAI_NOTICE")
         | exists (lit "LIST_START")];
        (split; [simpl; tauto|]);
        match goal with
        | |- context [literal ?p _] =>
            assert (L : literal p (m ++ post) = Some post)
              by (apply literal_spec; now exists m);
            now rewrite L
        end. }
    rewrite E. discriminate. }
  split; [exact Hsum|].
  intros q chunks r H. apply parse_Returned in H as [_ ->]. exact Hsum.
Qed.

Lemma empty_summary_kept_witness :
  summaryOf (joinLines ("SUMMARY:" :: "HEALTH_SCORE: 35" :: minimalTable)%string)
  = lit "".
Proof.
  apply (proj1 (empty_summary_kept
                  (joinLines ("SUMMARY:" :: "HEALTH_SCORE: 35" :: minimalTable)%string)
                  [] [NL]
                  (joinLines ("HEALTH_SCORE: 35" :: minimalTable)%string)
                  ltac:(apply findFirst_Some; reflexivity) eq_refl
                  (or_intror
                     (ex_intro _ (lit "HEALTH_SCORE")
                        (ex_intro _ (lit ": 35" ++ NL :: joinLines minimalTable)
                           (conj eq_refl (or_introl eq_refl))))))).
Defined.

(** X20.  The product name falls back on the query when the text has no
    [PRODUCT:], and also when nothing but white space follows the first
    [PRODUCT:] to the end of the text; otherwise it is the value extracted,
    when that is not empty. *)
Theorem productName_fallback (q text : str) :
  (~ Occurs (lit "PRODUCT:") text -> productNameOf q text = q) /\
  (forall pre ws, FirstOccurrence (lit "PRODUCT:") text pre ws ->
                  forallb isWhiteSpace ws = true -> productNameOf q text = q) /\
  (forall v, extractValue text (lit "PRODUCT") = Some v -> v <> [] ->
             productNameOf q text = v) /\
  (forall chunks r, parse q text chunks = Returned r ->
                    productName r = productNameOf q text).
Proof.
  unfold productNameOf. split; [|split; [|split]].
  - intros H. apply (extractValue_None text (lit "PRODUCT")) in H. now rewrite H.
  - intros pre ws Hfirst Hws. rewrite extractValue_eq. unfold afterLiteral.
    rewrite (search_literal_first (lit "PRODUCT" ++ lit ":")
               (fun r => Some (restOfLine (spaces r))) text pre ws
               (restOfLine (spaces ws)) Hfirst eq_refl).
    rewrite <- (app_nil_r ws), (spaces_app ws [] Hws). reflexivity.
  - intros v Hv Hne. rewrite Hv. destruct v; [contradiction | reflexivity].
  - intros chunks r H. now apply parse_Returned in H as [_ ->].
Qed.

Lemma productName_fallback_witness :
  productNameOf (lit "Maggi") scoreAbcReport = lit "Maggi".
Proof.
  apply (proj1 (productName_fallback (lit "Maggi") scoreAbcReport)).
  apply findFirst_None. reflexivity.
Defined.
